(** * validate-env-vars-webpack-plugin: a shallow embedding of [src/index.js]

    The plugin resolves a list of known environment-variable names, classifies
    every [process.env.NAME] read reported by the syntax walker, and pushes one
    webpack error per unrecognised name when compilation ends.

    JavaScript values are an inductive type, exceptions are an explicit
    completion type, the [Map] of unrecognised names is an insertion-ordered
    association list, the [lastIndex] of the regular expressions lives in a
    heap keyed by object identity, and the promise chain of the
    [beforeCompile] hook is run over a small hook state. *)

From Stdlib Require Import ZArith Ascii String DecimalString.
From stdpp Require Import base list strings gmap.

Set Warnings "-register-all".

(** ** JavaScript values and exceptions *)

Module Js.

(** The [lastIndex] of every RegExp object, by the identity of the object; an
    object that is absent has [lastIndex] 0. *)
Abbreviation Heap := (gmap nat nat).

(** The values the plugin's options can hold.  A [Number] is an integer.  A
    [RegExp] is an object with an identity [id], the text of its literal,
    whether it has the [g] or the [y] flag, and its matcher: [exec start
    input] is the end index of the match the expression finds when it starts
    at index [start] of [input], if it finds one.  An [Object] lists its own
    enumerable properties in key order. *)
Inductive value : Type :=
| Undefined
| Null
| Bool (b : bool)
| Number (n : Z)
| Str (s : string)
| RegExp (id : nat) (literal : string) (global_or_sticky : bool)
         (exec : nat -> string -> option nat)
| Array (elems : list value)
| Object (props : list (string * value)).

Record Error := { name : string; message : string }.

(** The outcome of evaluating an expression that may throw. *)
Inductive completion (A : Type) : Type :=
| Return (a : A)
| Throw (e : Error).
Arguments Return {A} a.
Arguments Throw {A} e.

Definition bind {A B} (c : completion A) (k : A -> completion B) : completion B :=
  match c with
  | Return a => k a
  | Throw e => Throw e
  end.

(** [arr.map(f)] for an [f] that may throw: elements are visited left to
    right and the first exception escapes. *)
Fixpoint map_throwing {A B} (f : A -> completion B) (arr : list A) : completion (list B) :=
  match arr with
  | [] => Return []
  | x :: rest =>
      bind (f x) (fun y => bind (map_throwing f rest) (fun ys => Return (y :: ys)))
  end.

(** [!v] is [negb (truthy v)]. *)
Definition truthy (v : value) : bool :=
  match v with
  | Undefined | Null => false
  | Bool b => b
  | Number n => negb (n =? 0)%Z
  | Str s => negb (String.eqb s "")
  | RegExp _ _ _ _ | Array _ | Object _ => true
  end.

Definition isArray (v : value) : bool :=
  match v with Array _ => true | _ => false end.

Definition typeof (v : value) : string :=
  match v with
  | Undefined => "undefined"
  | Null => "object"
  | Bool _ => "boolean"
  | Number _ => "number"
  | Str _ => "string"
  | RegExp _ _ _ _ | Array _ | Object _ => "object"
  end.

Definition string_of_Z (n : Z) : string :=
  NilZero.string_of_int (Z.to_int n).

Fixpoint join (sep : string) (parts : list string) : string :=
  match parts with
  | [] => ""
  | [p] => p
  | p :: rest => p +:+ sep +:+ join sep rest
  end.

(** The integers a double holds exactly and prints digit by digit. *)
Definition safe_integer (n : Z) : bool :=
  (Z.abs n <=? 9007199254740991)%Z.

(** The string a template literal [`${v}`] interpolates.  A safe integer is
    printed in decimal; how the engine prints any other number (rounded
    digits, an exponent from 1e21 on) is [engine_number]. *)
Fixpoint toString (engine_number : Z -> string) (v : value) : string :=
  match v with
  | Undefined => "undefined"
  | Null => "null"
  | Bool true => "true"
  | Bool false => "false"
  | Number n => if safe_integer n then string_of_Z n else engine_number n
  | Str s => s
  | RegExp _ literal _ _ => literal
  | Array elems =>
      join "," (List.map (fun e => match e with
                                   | Undefined | Null => ""
                                   | _ => toString engine_number e
                                   end) elems)
  | Object _ => "[object Object]"
  end.

(** Number::toString of ECMAScript on integers, for a sample engine.  A
    number literal denotes the double nearest to it, ties to even mantissa;
    [to_double] is that double for an integer from 2^53 on. *)
Definition to_double (n : Z) : Z :=
  let e := (Z.log2 n - 52)%Z in
  let q := Z.shiftr n e in
  let r := (n - Z.shiftl q e)%Z in
  let half := Z.shiftl 1 (e - 1) in
  let q' := if (r <? half)%Z then q
            else if (half <? r)%Z then (q + 1)%Z
            else if Z.even q then q else (q + 1)%Z in
  Z.shiftl q' e.

(** Whether the integer [v] denotes the double [x], which is m * 2^e with
    2^52 <= m < 2^53: [v] lies between the midpoints to the neighbours of
    [x], the midpoints included when m is even.  The neighbour below a power
    of two is half as far. *)
Definition rounds_to (x v : Z) : bool :=
  let e := (Z.log2 x - 52)%Z in
  let m := Z.shiftr x e in
  let up := Z.shiftl 1 e in
  let down := if (m =? 2 ^ 52)%Z then Z.shiftl 1 (e - 1) else up in
  if Z.even m
  then (2 * x - down <=? 2 * v)%Z && (2 * v <=? 2 * x + up)%Z
  else (2 * x - down <? 2 * v)%Z && (2 * v <? 2 * x + up)%Z.

(** The integer with the fewest significant digits that denotes [x], the
    one nearest to [x] among those with that many, tried from [k]
    significant digits up; [nd] is the number of digits of [x]. *)
Fixpoint shortest (x nd : Z) (k fuel : nat) : Z :=
  match fuel with
  | O => x
  | S fuel' =>
      let scale := (10 ^ (nd - Z.of_nat k))%Z in
      let lo := (x / scale * scale)%Z in
      let hi := (lo + scale)%Z in
      match rounds_to x lo, rounds_to x hi with
      | true, true =>
          if (x - lo <? hi - x)%Z then lo
          else if (hi - x <? x - lo)%Z then hi
          else if Z.even (x / scale) then lo else hi
      | true, false => lo
      | false, true => hi
      | false, false => shortest x nd (S k) fuel'
      end
  end.

Fixpoint strip_zeros (digits : string) : string :=
  match digits with
  | EmptyString => EmptyString
  | String c rest =>
      match strip_zeros rest with
      | EmptyString => if Ascii.eqb c "0" then EmptyString else String c EmptyString
      | rest' => String c rest'
      end
  end.

Definition Number_toString (n : Z) : string :=
  let sign := if (n <? 0)%Z then "-" else "" in
  let a := Z.abs n in
  if safe_integer n then string_of_Z n
  else if (2 ^ 1024 - 2 ^ 970 <=? a)%Z then sign +:+ "Infinity"
  else
    let x := to_double a in
    let v := shortest x (Z.of_nat (String.length (string_of_Z x))) 1 17 in
    let n := String.length (string_of_Z v) in
    if Nat.leb n 21 then sign +:+ string_of_Z v
    else
      match strip_zeros (string_of_Z v) with
      | EmptyString => EmptyString
      | String d EmptyString =>
          sign +:+ String d EmptyString +:+ "e+" +:+ string_of_Z (Z.of_nat (n - 1))
      | String d rest =>
          sign +:+ String d ("." +:+ rest) +:+ "e+" +:+ string_of_Z (Z.of_nat (n - 1))
      end.

Definition TypeError (msg : string) : Error :=
  {| name := "TypeError"; message := msg |}.

(** [Object.keys(v)]. *)
Definition Object_keys (v : value) : completion (list string) :=
  match v with
  | Undefined | Null => Throw (TypeError "Cannot convert undefined or null to object")
  | Object props => Return (List.map fst props)
  | Array elems => Return (List.map (fun i => string_of_Z (Z.of_nat i)) (seq 0 (length elems)))
  | Str s => Return (List.map (fun i => string_of_Z (Z.of_nat i)) (seq 0 (String.length s)))
  | Bool _ | Number _ | RegExp _ _ _ _ => Return []
  end.

(** [obj[k]] on own properties. *)
Fixpoint get_prop (props : list (string * value)) (k : string) : value :=
  match props with
  | [] => Undefined
  | (k', v) :: rest => if String.eqb k' k then v else get_prop rest k
  end.

Definition get (v : value) (k : string) : value :=
  match v with
  | Object props => get_prop props k
  | _ => Undefined
  end.

(** [arr.includes(x)] on an array of strings. *)
Definition includes (arr : list string) (x : string) : bool :=
  existsb (String.eqb x) arr.

(** [input.startsWith(check)]. *)
Fixpoint startsWith (input check : string) {struct check} : bool :=
  match check with
  | EmptyString => true
  | String c check' =>
      match input with
      | EmptyString => false
      | String i input' => Ascii.eqb i c && startsWith input' check'
      end
  end.

Fixpoint drop (n : nat) (s : string) : string :=
  match n, s with
  | O, _ => s
  | S n', String _ s' => drop n' s'
  | S _, EmptyString => EmptyString
  end.

(** [s.includes(sub)]. *)
Fixpoint str_includes (s sub : string) : bool :=
  startsWith s sub ||
  match s with
  | EmptyString => false
  | String _ s' => str_includes s' sub
  end.

(** A [Map] with string keys: entries in insertion order, one per key. *)
Definition Map (V : Type) : Type := list (string * V).

Definition Map_new {V} : Map V := [].

Definition Map_has {V} (m : Map V) (k : string) : bool :=
  existsb (fun e => String.eqb (fst e) k) m.

(** [m.set(k, v)]: an existing key keeps its position and takes the new
    value, a new key goes to the end. *)
Fixpoint Map_set {V} (m : Map V) (k : string) (v : V) : Map V :=
  match m with
  | [] => [(k, v)]
  | (k', v') :: rest =>
      if String.eqb k' k then (k', v) :: rest else (k', v') :: Map_set rest k v
  end.

Definition Map_entries {V} (m : Map V) : list (string * V) := m.

Definition lastIndex (h : Heap) (id : nat) : nat := default 0 (h !! id).

Definition set_lastIndex (id n : nat) (h : Heap) : Heap :=
  if Nat.eqb n 0 then delete id h else <[id := n]> h.

(** [re.test(input)].  Without the [g] and [y] flags the search starts at 0
    and [lastIndex] is left alone.  With one of them it starts at
    [lastIndex]; a match moves [lastIndex] to its end, a failure (or a
    [lastIndex] beyond the input) answers [false] and resets it to 0. *)
Definition RegExp_test (id : nat) (global_or_sticky : bool)
  (exec : nat -> string -> option nat) (input : string) (h : Heap) : bool * Heap :=
  if global_or_sticky then
    if Nat.ltb (String.length input) (lastIndex h id) then (false, set_lastIndex id 0 h)
    else match exec (lastIndex h id) input with
         | Some e => (true, set_lastIndex id e h)
         | None => (false, set_lastIndex id 0 h)
         end
  else
    (match exec 0 input with Some _ => true | None => false end, h).

End Js.

Notation "'let*' x ':=' c 'in' k" := (Js.bind c (fun x => k))
  (at level 10, x name, c at level 100, k at level 200).

(** ** The plugin *)

Definition PLUGIN_NAME : string := "ValidateEnvVars".

Definition BadArgsError (message : string) : Js.Error :=
  {| Js.name := "ValidateEnvVarsPluginBadArgsError"; Js.message := message |}.

(** A webpack [Module].  The plugin reads [userRequest] only; [identifier]
    stands for the identity of the object. *)
Record Module := { identifier : string; userRequest : string }.

Record WebpackError := {
  error_message : string;
  error_name : string;
  error_module : Module }.

Definition UnrecognisedEnvVarError (envVar : string) (module : Module) : WebpackError :=
  {| error_message := "Unrecognised environment variable: " +:+ envVar;
     error_name := "UnrecognisedEnvVarError";
     error_module := module |}.

Definition hasPartialProperties (object : Js.value) (properties : list string)
  : Js.completion bool :=
  let* keys := Js.Object_keys object in
  Js.Return (existsb (fun k => Js.includes properties k) keys).

Definition hasAllProperties (object : Js.value) (properties : list string)
  : Js.completion bool :=
  let* objKeys := Js.Object_keys object in
  Js.Return (forallb (fun k => Js.includes objKeys k) properties).

Definition toQuotedStringList (arr : list string) : string :=
  Js.join ", " (List.map (fun value => "'" +:+ value +:+ "'") arr).

(** [!(typeof v === "string") || !v.length] *)
Definition notStringOrNoLength (v : Js.value) : bool :=
  match v with
  | Js.Str s => negb (Js.truthy (Js.Number (Z.of_nat (String.length s))))
  | _ => true
  end.

Definition createExternalSourceCheck
  (sourceName : string) (sourceRequiredInputProperties : list string)
  (input : Js.value) : Js.completion bool :=
  if Js.isArray input || negb (String.eqb (Js.typeof input) "object") then
    Js.Return false
  else
    let requiredPropsList := toQuotedStringList sourceRequiredInputProperties in
    let* all := hasAllProperties input sourceRequiredInputProperties in
    if all then
      let stringFieldWithoutLength :=
        List.find (fun k => notStringOrNoLength (Js.get input k))
                  sourceRequiredInputProperties in
      match stringFieldWithoutLength with
      | Some field =>
          if Js.truthy (Js.Str field) then
            Js.Throw (BadArgsError
              ("bad " +:+ sourceName +:+
               " source configuration (missing value for property '" +:+
               field +:+ "')"))
          else Js.Return true
      | None => Js.Return true
      end
    else
      let* partial := hasPartialProperties input sourceRequiredInputProperties in
      if partial then
        Js.Throw (BadArgsError
          ("bad " +:+ sourceName +:+
           " source configuration (requires properties: " +:+
           requiredPropsList +:+ ")"))
      else Js.Return false.

Definition AWS_required : list string :=
  ["region"; "secretId"; "secretAccessKey"; "accessKeyId"].

Definition isAWSSecretsManagerSource : Js.value -> Js.completion bool :=
  createExternalSourceCheck "AWS SecretsManager" AWS_required.

(** The one request [getAWSSecretsManagerEnvVarNames] sends: the client
    configuration and the parameters of [getSecretValue].  Optional members are
    present when the option is truthy. *)
Record GetSecretValueCall := {
  accessKeyId : Js.value;
  secretAccessKey : Js.value;
  region : Js.value;
  sessionToken : option Js.value;
  SecretId : Js.value;
  VersionId : option Js.value;
  VersionStage : option Js.value }.

Definition spread_if_truthy (v : Js.value) : option Js.value :=
  if Js.truthy v then Some v else None.

(** What the service calls back with: [err], or [data] with its
    [SecretString]. *)
Inductive GetSecretValueResponse :=
| ResponseErr (err : Js.Error)
| ResponseData (SecretString : Js.value).

(** The environment the plugin runs in: the process environment, the file
    system, the two parsers, the secret store, which answers a request after
    some milliseconds or never, how the engine prints a number that is not a
    safe integer, and the [lastIndex] the RegExp objects of the options have
    when the plugin is constructed. *)
Record Runtime := {
  Number_toString : Z -> string;
  regexp_lastIndex : Js.Heap;
  process_env : list string;
  fs_existsSync : string -> bool;
  fs_readFileSync : string -> Js.completion string;
  dotenv_parse : string -> Js.completion Js.value;
  JSON_parse : Js.value -> Js.completion Js.value;
  getSecretValue : GetSecretValueCall -> option (Z * GetSecretValueResponse) }.

(** The promise held in [this.knownEnvVars]: [Promise.resolve(names)], or the
    promise settled by the callback of the request that was sent. *)
Inductive KnownEnvVarsPromise :=
| Promise_resolve (envVarNames : list string)
| Promise_getSecretValue (call : GetSecretValueCall).

Definition getAWSSecretsManagerEnvVarNames (sourceOptions : Js.value)
  : KnownEnvVarsPromise :=
  Promise_getSecretValue
    {| accessKeyId := Js.get sourceOptions "accessKeyId";
       secretAccessKey := Js.get sourceOptions "secretAccessKey";
       region := Js.get sourceOptions "region";
       sessionToken := spread_if_truthy (Js.get sourceOptions "sessionToken");
       SecretId := Js.get sourceOptions "secretId";
       VersionId := spread_if_truthy (Js.get sourceOptions "secretVersionId");
       VersionStage := spread_if_truthy (Js.get sourceOptions "secretVersionStage") |}.

Inductive Settled :=
| Fulfilled (envVars : list string)
| Rejected (err : Js.Error).

(** The callback given to [getSecretValue]. *)
Definition getSecretValue_callback (rt : Runtime) (response : GetSecretValueResponse)
  : Settled :=
  match response with
  | ResponseErr err => Rejected err
  | ResponseData SecretString =>
      match (let* parsed := JSON_parse rt SecretString in Js.Object_keys parsed) with
      | Js.Return keys => Fulfilled keys
      | Js.Throw err =>
          Rejected {| Js.name := Js.name err;
                      Js.message := PLUGIN_NAME +:+ " failed parsing SecretString: "
                                    +:+ Js.message err |}
      end
  end.

(** [name.replace(/^process\.env\./, "")] *)
Definition strip_process_env (name : string) : string :=
  if Js.startsWith name "process.env." then Js.drop 12 name else name.

Definition knownEnvVars_element (name : Js.value) : Js.completion string :=
  match name with
  | Js.Str s => Js.Return (strip_process_env s)
  | _ => Js.Throw (BadArgsError
      "bad env vars source configuration (got array, but expected all elements to be string)")
  end.

Definition _processKnownEnvVars (rt : Runtime) (knownEnvVars : Js.value)
  : Js.completion KnownEnvVarsPromise :=
  if negb (Js.truthy knownEnvVars) then
    Js.Return (Promise_resolve (process_env rt))
  else
    match knownEnvVars with
    | Js.Array elems =>
        let* envVarNames := Js.map_throwing knownEnvVars_element elems in
        Js.Return (Promise_resolve envVarNames)
    | Js.Str envFilePath =>
        if negb (fs_existsSync rt envFilePath) then
          Js.Throw (BadArgsError
            "bad env vars source configuration (got string, but no file exists at path)")
        else
          let* buffer := fs_readFileSync rt envFilePath in
          let* parsed := dotenv_parse rt buffer in
          let* envVarNames := Js.Object_keys parsed in
          Js.Return (Promise_resolve envVarNames)
    | _ =>
        let* aws := isAWSSecretsManagerSource knownEnvVars in
        if aws then Js.Return (getAWSSecretsManagerEnvVarNames knownEnvVars)
        else Js.Throw (BadArgsError
               "bad env vars source configuration (refer to documentation)")
    end.

(** A compiled check: a closure over a string or over a RegExp object, so
    calling it may read and write the [lastIndex] of that object. *)
Definition BooleanCheckFunc : Type := string -> Js.Heap -> bool * Js.Heap.

Definition _processStringOrRegexArrayInput
  (rt : Runtime) (name : string) (arr : Js.value)
  (stringCheck : string -> string -> bool)
  : Js.completion (list BooleanCheckFunc) :=
  if negb (Js.truthy arr) then Js.Return []
  else
    match arr with
    | Js.Array elems =>
        Js.map_throwing
          (fun value =>
             match value with
             | Js.RegExp id _ global_or_sticky exec =>
                 Js.Return (fun input h => Js.RegExp_test id global_or_sticky exec input h)
             | Js.Str s => Js.Return (fun input h => (stringCheck s input, h))
             | _ => Js.Throw (BadArgsError
                      ("expecting " +:+ Js.toString (Number_toString rt) value
                       +:+ " to be [String|RegExp]"))
             end)
          elems
    | _ => Js.Throw (BadArgsError ("expected " +:+ name +:+ " to be String|RegExp[]"))
    end.

(** [checks.some((check) => check(input))]: the checks are called in order
    and the first that answers [true] ends the loop. *)
Fixpoint some_check (checks : list BooleanCheckFunc) (input : string) (h : Js.Heap)
  : bool * Js.Heap :=
  match checks with
  | [] => (false, h)
  | check :: rest =>
      let '(b, h') := check input h in
      if b then (true, h') else some_check rest input h'
  end.

(** The three [stringCheck] callbacks of the constructor. *)
Definition ignoreEnvVars_stringCheck (check input : string) : bool :=
  String.eqb check (strip_process_env input).

Definition paths_stringCheck (check input : string) : bool :=
  Js.startsWith input check.

(** The instance, together with the part of the heap its checks reach: the
    [lastIndex] of the RegExp objects they close over. *)
Record Plugin := {
  knownEnvVarsTimeout : Z;
  knownEnvVars : KnownEnvVarsPromise;
  foundUnrecognisedEnvVars : Js.Map Module;
  ignoreEnvVars : list BooleanCheckFunc;
  includePaths : list BooleanCheckFunc;
  excludePaths : list BooleanCheckFunc;
  lastIndexes : Js.Heap }.

(** [options.key]; reading a property of [null] throws. *)
Definition options_get (options : Js.value) (key : string) : Js.completion Js.value :=
  match options with
  | Js.Null =>
      Js.Throw (Js.TypeError ("Cannot read property '" +:+ key +:+ "' of null"))
  | _ => Js.Return (Js.get options key)
  end.

Definition requests_sent (p : Js.completion KnownEnvVarsPromise)
  : list GetSecretValueCall :=
  match p with
  | Js.Return (Promise_getSecretValue call) => [call]
  | _ => []
  end.

(** [new ValidateEnvVarsPlugin(options)]: the requests sent to the secret
    store while constructing, and the instance or the exception thrown. *)
Definition constructor (rt : Runtime) (options : Js.value)
  : list GetSecretValueCall * Js.completion Plugin :=
  let options := match options with Js.Undefined => Js.Object [] | _ => options end in
  let known :=
    let* v := options_get options "knownEnvVars" in _processKnownEnvVars rt v in
  (requests_sent known,
   let* known_promise := known in
   let* ignore :=
     (let* v := options_get options "ignoreEnvVars" in
      _processStringOrRegexArrayInput rt "ignoreEnvVars" v ignoreEnvVars_stringCheck) in
   let* include :=
     (let* v := options_get options "includePaths" in
      _processStringOrRegexArrayInput rt "includePaths" v paths_stringCheck) in
   let* exclude :=
     (let* v := options_get options "excludePaths" in
      _processStringOrRegexArrayInput rt "excludePaths" v paths_stringCheck) in
   Js.Return {| knownEnvVarsTimeout := 5000;
                knownEnvVars := known_promise;
                foundUnrecognisedEnvVars := Js.Map_new;
                ignoreEnvVars := ignore;
                includePaths := include;
                excludePaths := exclude;
                lastIndexes := regexp_lastIndex rt |}).

(** ** Recognition *)

(** One call [debug(envVar, reason)]. *)
Definition DebugCall : Type := string * string.

(** The verdict, the call to [debug], and the heap the checks that ran leave
    behind. *)
Definition _isRecognisedEnvVar
  (this : Plugin) (knownEnvVars : list string) (envVar modulePath : string)
  : bool * DebugCall * Js.Heap :=
  let h := lastIndexes this in
  if Js.includes knownEnvVars envVar then
    (true, (envVar, "in knownEnvVars"), h)
  else if Js.Map_has (foundUnrecognisedEnvVars this) envVar then
    (true, (envVar, "in foundUnrecognisedEnvVars"), h)
  else
    let included := some_check (includePaths this) modulePath h in
    if negb (fst included) then
      (true, (envVar, "outside includePaths"), snd included)
    else
      let excluded := some_check (excludePaths this) modulePath (snd included) in
      if fst excluded then
        (true, (envVar, "in excludePaths"), snd excluded)
      else
        let ignored := some_check (ignoreEnvVars this) envVar (snd excluded) in
        if fst ignored then
          (true, (envVar, "in ignoreEnvVars"), snd ignored)
        else
          (false, (envVar, "unrecognised"), snd ignored).

(** What the walker hands over for one static read [process.env.NAME]. *)
Record ScanEvent := { event_name : string; event_module : Module }.

Definition set_foundUnrecognisedEnvVars (this : Plugin) (m : Js.Map Module) : Plugin :=
  {| knownEnvVarsTimeout := knownEnvVarsTimeout this;
     knownEnvVars := knownEnvVars this;
     foundUnrecognisedEnvVars := m;
     ignoreEnvVars := ignoreEnvVars this;
     includePaths := includePaths this;
     excludePaths := excludePaths this;
     lastIndexes := lastIndexes this |}.

Definition set_lastIndexes (this : Plugin) (h : Js.Heap) : Plugin :=
  {| knownEnvVarsTimeout := knownEnvVarsTimeout this;
     knownEnvVars := knownEnvVars this;
     foundUnrecognisedEnvVars := foundUnrecognisedEnvVars this;
     ignoreEnvVars := ignoreEnvVars this;
     includePaths := includePaths this;
     excludePaths := excludePaths this;
     lastIndexes := h |}.

(** The body of the [MemberExpression] visitor of [tapParser], once the
    expression is known to be a static read of [process.env]. *)
Definition MemberExpression
  (this : Plugin) (knownEnvVars : list string) (ev : ScanEvent) : Plugin * DebugCall :=
  let name := event_name ev in
  let module := event_module ev in
  let modulePath := userRequest module in
  let '(recognised, dbg, h) := _isRecognisedEnvVar this knownEnvVars name modulePath in
  let this := set_lastIndexes this h in
  (if negb recognised then
     set_foundUnrecognisedEnvVars this
       (Js.Map_set (foundUnrecognisedEnvVars this) name module)
   else this,
   dbg).

(** All parser events of one compilation, in the order they arrive. *)
Fixpoint scan (this : Plugin) (knownEnvVars : list string) (events : list ScanEvent)
  : Plugin * list DebugCall :=
  match events with
  | [] => (this, [])
  | ev :: rest =>
      let '(this', dbg) := MemberExpression this knownEnvVars ev in
      let '(this'', log) := scan this' knownEnvVars rest in
      (this'', dbg :: log)
  end.

(** The errors the [afterCompile] hook builds. *)
Definition diagnostics (this : Plugin) : list WebpackError :=
  List.map (fun e => UnrecognisedEnvVarError (fst e) (snd e))
           (Js.Map_entries (foundUnrecognisedEnvVars this)).

(** [compilation.errors.push(...errors)] *)
Definition afterCompile (this : Plugin) (compilation_errors : list WebpackError)
  : list WebpackError :=
  compilation_errors ++ diagnostics this.

(** ** The [beforeCompile] hook *)

(** The variables the hook's promise chain writes: [knownEnvVars] of [apply],
    whether [resolve()] ran, and whether the bail timer is still armed. *)
Record HookState := {
  knownEnvVars_let : option (list string);
  hook_resolved : bool;
  bailTimeout_armed : bool }.

Definition hook_start : HookState :=
  {| knownEnvVars_let := None; hook_resolved := false; bailTimeout_armed := true |}.

(** [.then((envVars) => { knownEnvVars = envVars; resolve(); })] *)
Definition on_then (s : Settled) (st : HookState) : HookState * option Js.Error :=
  match s with
  | Fulfilled envVars =>
      ({| knownEnvVars_let := Some envVars;
          hook_resolved := true;
          bailTimeout_armed := bailTimeout_armed st |}, None)
  | Rejected err => (st, Some err)
  end.

(** [.catch((err) => { throw err; })] *)
Definition on_catch (r : option Js.Error) : option Js.Error :=
  match r with
  | Some err => Some err
  | None => None
  end.

(** [.finally(() => { clearTimeout(bailTimeoutId); })] *)
Definition on_finally (st : HookState) : HookState :=
  {| knownEnvVars_let := knownEnvVars_let st;
     hook_resolved := hook_resolved st;
     bailTimeout_armed := false |}.

Definition timeout_error : Js.Error :=
  {| Js.name := "Error";
     Js.message := PLUGIN_NAME +:+ " timed out resolving known env vars" |}.

Record HookResult := {
  hook_state : HookState;
  unhandledRejection : option Js.Error;
  uncaughtException : option Js.Error }.

(** When [this.knownEnvVars] settles, in milliseconds after the hook starts,
    and how.  [Promise.resolve] is settled from the start. *)
Definition settlement (rt : Runtime) (p : KnownEnvVarsPromise) : option (Z * Settled) :=
  match p with
  | Promise_resolve envVarNames => Some (0%Z, Fulfilled envVarNames)
  | Promise_getSecretValue call =>
      match getSecretValue rt call with
      | Some (ms, response) => Some (ms, getSecretValue_callback rt response)
      | None => None
      end
  end.

(** The timer callback throws. *)
Definition bail : HookResult :=
  {| hook_state := {| knownEnvVars_let := None;
                      hook_resolved := false;
                      bailTimeout_armed := false |};
     unhandledRejection := None;
     uncaughtException := Some timeout_error |}.

(** The hook arms the timer and chains on the promise; whichever is due first
    runs, the timer on a tie. *)
Definition beforeCompile (rt : Runtime) (this : Plugin) : HookResult :=
  match settlement rt (knownEnvVars this) with
  | Some (ms, s) =>
      if (ms <? knownEnvVarsTimeout this)%Z then
        let '(st, r) := on_then s hook_start in
        {| hook_state := on_finally st;
           unhandledRejection := on_catch r;
           uncaughtException := None |}
      else bail
  | None => bail
  end.

(** ** One build *)

Inductive BuildResult :=
| Compiled (errors : list WebpackError) (debugLog : list DebugCall)
| Crashed (err : Js.Error)
| Stalled (warning : option Js.Error).

(** [apply(compiler)] followed by one run of the compiler: the hooks fire in
    the order [beforeCompile], the parser events, [afterCompile].  An
    exception thrown from the timer ends the process; so does a rejection
    nobody handles when the process raises those ([throwUnhandled]), otherwise it
    is only reported and the hook's promise stays pending. *)
Definition apply
  (throwUnhandled : bool) (rt : Runtime) (this : Plugin)
  (events : list ScanEvent) (compilation_errors : list WebpackError) : BuildResult :=
  let h := beforeCompile rt this in
  match uncaughtException h with
  | Some err => Crashed err
  | None =>
      match unhandledRejection h with
      | Some err => if throwUnhandled then Crashed err else Stalled (Some err)
      | None =>
          match hook_resolved (hook_state h), knownEnvVars_let (hook_state h) with
          | true, Some knownEnvVars =>
              let '(this', log) := scan this knownEnvVars events in
              Compiled (afterCompile this' compilation_errors) log
          | _, _ => Stalled None
          end
      end
  end.

(** The accesses a build classified: one [debug] call each. *)
Definition classified (r : BuildResult) : list DebugCall :=
  match r with
  | Compiled _ log => log
  | Crashed _ | Stalled _ => []
  end.

(** ** The decision order as a table of rules *)

Inductive Rule :=
| InKnownSet
| AlreadyFound
| OutsideIncludePaths
| InExcludePaths
| InIgnoreEnvVars.

Definition decision_order : list Rule :=
  [InKnownSet; AlreadyFound; OutsideIncludePaths; InExcludePaths; InIgnoreEnvVars].

(** What [debug] reports for the rule that fired. *)
Definition rule_reason (r : Rule) : string :=
  match r with
  | InKnownSet => "in knownEnvVars"
  | AlreadyFound => "in foundUnrecognisedEnvVars"
  | OutsideIncludePaths => "outside includePaths"
  | InExcludePaths => "in excludePaths"
  | InIgnoreEnvVars => "in ignoreEnvVars"
  end.

(** The five rules, each tested in the heap the rules before it left.  With
    [guarded] the third rule reads as the specification words it,
    "includePaths is non-empty and no include predicate matches"; without, it
    is "no include predicate matches". *)
Definition rule_holds (guarded : bool)
  (this : Plugin) (knownEnvVars : list string) (envVar modulePath : string)
  (r : Rule) (h : Js.Heap) : bool * Js.Heap :=
  match r with
  | InKnownSet => (Js.includes knownEnvVars envVar, h)
  | AlreadyFound => (Js.Map_has (foundUnrecognisedEnvVars this) envVar, h)
  | OutsideIncludePaths =>
      let included := some_check (includePaths this) modulePath h in
      ((if guarded then negb (Nat.eqb (length (includePaths this)) 0) else true)
       && negb (fst included),
       snd included)
  | InExcludePaths => some_check (excludePaths this) modulePath h
  | InIgnoreEnvVars => some_check (ignoreEnvVars this) envVar h
  end.

(** First match wins: the rules are tested in order and the first that holds
    ends the decision. *)
Fixpoint first_match (holds : Rule -> Js.Heap -> bool * Js.Heap)
  (rules : list Rule) (h : Js.Heap) : option Rule * Js.Heap :=
  match rules with
  | [] => (None, h)
  | r :: rest =>
      let '(b, h') := holds r h in
      if b then (Some r, h') else first_match holds rest h'
  end.

(** The decision a rule table prescribes for one access: the verdict with its
    reason, the heap, and the record afterwards. *)
Definition prescribed (guarded : bool)
  (this : Plugin) (knownEnvVars : list string) (ev : ScanEvent)
  : bool * DebugCall * Js.Heap * Js.Map Module :=
  let envVar := event_name ev in
  match first_match
          (rule_holds guarded this knownEnvVars envVar (userRequest (event_module ev)))
          decision_order (lastIndexes this) with
  | (Some r, h) => (true, (envVar, rule_reason r), h, foundUnrecognisedEnvVars this)
  | (None, h) => (false, (envVar, "unrecognised"), h,
                  foundUnrecognisedEnvVars this ++ [(envVar, event_module ev)])
  end.

(** What the code does for one access, in the same shape. *)
Definition performed (this : Plugin) (knownEnvVars : list string) (ev : ScanEvent)
  : bool * DebugCall * Js.Heap * Js.Map Module :=
  (_isRecognisedEnvVar this knownEnvVars (event_name ev) (userRequest (event_module ev)),
   foundUnrecognisedEnvVars (fst (MemberExpression this knownEnvVars ev))).

(** The diagnostics among [errors] that report [envVar]. *)
Definition diagnostics_about (envVar : string) (errors : list WebpackError)
  : list WebpackError :=
  List.filter
    (fun e => String.eqb (error_message e)
                         ("Unrecognised environment variable: " +:+ envVar))
    errors.

(** The calls [debug(envVar, "unrecognised")] in a log. *)
Definition unrecognised_calls (envVar : string) (log : list DebugCall) : list DebugCall :=
  List.filter
    (fun d => String.eqb (fst d) envVar && String.eqb (snd d) "unrecognised") log.

(** All calls [debug(_, "unrecognised")] in a log. *)
Definition unrecognised_calls_total (log : list DebugCall) : list DebugCall :=
  List.filter (fun d => String.eqb (snd d) "unrecognised") log.

(** An access is inside the scanned area and not exempt, as the checks answer
    in the state [this]: the include checks match the module path, then the
    exclude checks do not, then the ignore checks do not match the name. *)
Definition in_scope (this : Plugin) (ev : ScanEvent) : bool :=
  let included :=
    some_check (includePaths this) (userRequest (event_module ev)) (lastIndexes this) in
  let excluded :=
    some_check (excludePaths this) (userRequest (event_module ev)) (snd included) in
  let ignored := some_check (ignoreEnvVars this) (event_name ev) (snd excluded) in
  fst included && negb (fst excluded) && negb (fst ignored).

(** The required fields a message names, quoted as the code quotes them. *)
Definition names_field (message field : string) : bool :=
  Js.str_includes message ("'" +:+ field +:+ "'").

(** The messages of the configuration errors. *)
Definition requires_properties_message : string :=
  "bad AWS SecretsManager source configuration (requires properties: 'region', 'secretId', 'secretAccessKey', 'accessKeyId')".

Definition missing_value_message (field : string) : string :=
  "bad AWS SecretsManager source configuration (missing value for property '"
  +:+ field +:+ "')".

Definition not_all_strings_message : string :=
  "bad env vars source configuration (got array, but expected all elements to be string)".


(** ** A line-based [KEY=VALUE] reader *)

Definition LF : string := String (ascii_of_nat 10) EmptyString.

Fixpoint split_on (sep : ascii) (s : string) : list string :=
  match s with
  | EmptyString => [EmptyString]
  | String c rest =>
      if Ascii.eqb c sep then EmptyString :: split_on sep rest
      else match split_on sep rest with
           | [] => [String c EmptyString]
           | cur :: others => String c cur :: others
           end
  end.

Definition key_value (line : string) : option (string * string) :=
  match split_on "="%char line with
  | key :: v :: vs => Some (key, Js.join "=" (v :: vs))
  | _ => None
  end.

(** Modelled from the spec: the [dotenv] package is not part of the source;
    the file content is "parsed as line-based KEY=VALUE text" and the result
    is an object with one property per key, a later line for a key replacing
    the value of an earlier one. *)
Definition dotenv_lines (content : string) : Js.completion Js.value :=
  Js.Return
    (Js.Object
       (fold_left
          (fun (props : Js.Map Js.value) line =>
             match key_value line with
             | Some (k, v) => Js.Map_set props k (Js.Str v)
             | None => props
             end)
          (split_on (ascii_of_nat 10) content) Js.Map_new)).

(** ** A sample environment *)

Definition SyntaxError (msg : string) : Js.Error :=
  {| Js.name := "SyntaxError"; Js.message := msg |}.

(** A file [/app/.env] with two assignments, a secret store that answers every
    request after [latency] milliseconds with [response], and a JSON reader
    that knows one document. *)
Definition sample_runtime (latency : Z) (response : GetSecretValueResponse) : Runtime :=
  {| Number_toString := Js.Number_toString;
     regexp_lastIndex := ∅;
     process_env := ["HOME"; "PATH"];
     fs_existsSync := fun path => String.eqb path "/app/.env";
     fs_readFileSync := fun path =>
       if String.eqb path "/app/.env" then Js.Return ("A=1" +:+ LF +:+ "B=2")
       else Js.Throw {| Js.name := "Error"; Js.message := "ENOENT" |};
     dotenv_parse := dotenv_lines;
     JSON_parse := fun text =>
       match text with
       | Js.Str "{API_URL:1}" => Js.Return (Js.Object [("API_URL", Js.Number 1)])
       | _ => Js.Throw (SyntaxError "Unexpected token")
       end;
     getSecretValue := fun _ => Some (latency, response) |}.

(** The instance the constructor builds when only an array of known names
    is configured. *)
Definition default_plugin (known : list string) : Plugin :=
  {| knownEnvVarsTimeout := 5000;
     knownEnvVars := Promise_resolve known;
     foundUnrecognisedEnvVars := Js.Map_new;
     ignoreEnvVars := [];
     includePaths := [];
     excludePaths := [];
     lastIndexes := ∅ |}.

(** The instance built for an array of known names and one included path
    prefix. *)
Definition default_plugin_including (path : string) (known : list string) : Plugin :=
  {| knownEnvVarsTimeout := 5000;
     knownEnvVars := Promise_resolve known;
     foundUnrecognisedEnvVars := Js.Map_new;
     ignoreEnvVars := [];
     includePaths := [fun input h => (paths_stringCheck path input, h)];
     excludePaths := [];
     lastIndexes := ∅ |}.

Definition aws_descriptor (region_v secretId_v secretAccessKey_v accessKeyId_v : Js.value)
  : Js.value :=
  Js.Object [("region", region_v); ("secretId", secretId_v);
             ("secretAccessKey", secretAccessKey_v); ("accessKeyId", accessKeyId_v)].

Definition sample_descriptor : Js.value :=
  aws_descriptor (Js.Str "eu-west-1") (Js.Str "api-env-vars")
                 (Js.Str "s3cr3t") (Js.Str "AKIA").

(** The request the constructor sends for the sample descriptor. *)
Definition sample_call : GetSecretValueCall :=
  {| accessKeyId := Js.Str "AKIA";
     secretAccessKey := Js.Str "s3cr3t";
     region := Js.Str "eu-west-1";
     sessionToken := None;
     SecretId := Js.Str "api-env-vars";
     VersionId := None;
     VersionStage := None |}.

(** The instance built for the sample descriptor and one included path
    prefix. *)
Definition sample_aws_plugin : Plugin :=
  {| knownEnvVarsTimeout := 5000;
     knownEnvVars := Promise_getSecretValue sample_call;
     foundUnrecognisedEnvVars := Js.Map_new;
     ignoreEnvVars := [];
     includePaths := [fun input h => (paths_stringCheck "/src" input, h)];
     excludePaths := [];
     lastIndexes := ∅ |}.

Definition access_denied : Js.Error :=
  {| Js.name := "AccessDeniedException"; Js.message := "not authorized" |}.

(** The sample options with a bail timeout of one second, under both
    spellings of the option. *)
Definition options_with_timeout : Js.value :=
  Js.Object [("knownEnvVars", sample_descriptor);
             ("knownEnvVarsTimeout", Js.Number 1000);
             ("knownEnvVarsTimeoutMs", Js.Number 1000);
             ("includePaths", Js.Array [Js.Str "/src"])].

(** The matcher of [/^BAR_/]: a match is possible at index 0 only and ends
    at index 4. *)
Definition BAR_exec (start : nat) (input : string) : option nat :=
  if Nat.eqb start 0 && Js.startsWith input "BAR_" then Some 4 else None.

(** Options that ignore the name FOO and every name beginning with BAR_, the
    expression with the [g] flag or without, and the instance built for
    them. *)
Definition ignoring_options (global : bool) : Js.value :=
  Js.Object [("knownEnvVars", Js.Array []);
             ("includePaths", Js.Array [Js.Str "/src"]);
             ("ignoreEnvVars",
              Js.Array [Js.Str "FOO"; Js.RegExp 1 "/^BAR_/" global BAR_exec])].

Definition ignoring_plugin (global : bool) : Plugin :=
  {| knownEnvVarsTimeout := 5000;
     knownEnvVars := Promise_resolve [];
     foundUnrecognisedEnvVars := Js.Map_new;
     ignoreEnvVars := [fun input h => (ignoreEnvVars_stringCheck "FOO" input, h);
                       fun input h => Js.RegExp_test 1 global BAR_exec input h];
     includePaths := [fun input h => (paths_stringCheck "/src" input, h)];
     excludePaths := [];
     lastIndexes := ∅ |}.



(** The matcher of an expression that is plain text: the end index of the
    first occurrence of [text] in [input] at or after index [start].
    [first_occurrence] runs over the rest of the input from the index
    [pos]. *)
Fixpoint first_occurrence (text input : string) (pos : nat) : option nat :=
  if Js.startsWith input text then Some (pos + String.length text)
  else match input with
       | EmptyString => None
       | String _ rest => first_occurrence text rest (S pos)
       end.

Definition text_exec (text : string) (start : nat) (input : string) : option nat :=
  first_occurrence text (Js.drop start input) start.

(** Options that scan the modules whose path holds "src", and options that
    scan /src except the paths that hold "gen", both by an expression with
    the [g] flag. *)
Definition global_include_options : Js.value :=
  Js.Object [("knownEnvVars", Js.Array []);
             ("includePaths", Js.Array [Js.RegExp 2 "/src/g" true (text_exec "src")])].

Definition global_exclude_options : Js.value :=
  Js.Object [("knownEnvVars", Js.Array []);
             ("includePaths", Js.Array [Js.Str "/src"]);
             ("excludePaths", Js.Array [Js.RegExp 3 "/gen/g" true (text_exec "gen")])].

Definition local_runtime : Runtime :=
  sample_runtime 0 (ResponseData (Js.Str "{API_URL:1}")).

(** [new ValidateEnvVarsPlugin(options)] followed by one build. *)
Definition build (rt : Runtime) (options : Js.value) (events : list ScanEvent)
  : option BuildResult :=
  match snd (constructor rt options) with
  | Js.Return this => Some (apply false rt this events [])
  | Js.Throw _ => None
  end.

Definition src_a : Module := {| identifier := "1"; userRequest := "/src/a.js" |}.
Definition src_b : Module := {| identifier := "2"; userRequest := "/src/b.js" |}.
Definition gen_x : Module := {| identifier := "3"; userRequest := "/src/gen/x.js" |}.

Definition read (envVar : string) (module : Module) : ScanEvent :=
  {| event_name := envVar; event_module := module |}.

(** ** The syntax the walker visits *)

Module Estree.

(** The part of an ESTree program the visitor looks at.  A member expression
    is [object.name] or [object.#name] ([Static], not computed, its property
    an identifier or a private identifier) or [object[property]]
    ([Computed]). *)
Inductive Node : Type :=
| Identifier (name : string)
| PrivateIdentifier (name : string)
| Static (object : Node) (name : string) (private : bool)
| Computed (object property : Node)
| Other (type : string).

Definition type (n : Node) : string :=
  match n with
  | Identifier _ => "Identifier"
  | PrivateIdentifier _ => "PrivateIdentifier"
  | Static _ _ _ | Computed _ _ => "MemberExpression"
  | Other t => t
  end.

(** [n.name] *)
Definition name (n : Node) : option string :=
  match n with
  | Identifier x | PrivateIdentifier x => Some x
  | _ => None
  end.

(** [n.object] *)
Definition object (n : Node) : option Node :=
  match n with
  | Static o _ _ | Computed o _ => Some o
  | _ => None
  end.

(** [n.property] *)
Definition property (n : Node) : option Node :=
  match n with
  | Static _ x false => Some (Identifier x)
  | Static _ x true => Some (PrivateIdentifier x)
  | Computed _ p => Some p
  | _ => None
  end.

(** [n.computed] *)
Definition computed (n : Node) : bool :=
  match n with
  | Computed _ _ => true
  | _ => false
  end.

Definition name_is (n : Node) (x : string) : bool :=
  match name n with
  | Some y => String.eqb y x
  | None => false
  end.

End Estree.

(** The condition of the [MemberExpression] visitor. *)
Definition looks_like_process_env (expression : Estree.Node) : bool :=
  match Estree.object expression with
  | Some obj =>
      String.eqb (Estree.type obj) "MemberExpression"
      && match Estree.object obj, Estree.property obj with
         | Some obj_object, Some obj_property =>
             String.eqb (Estree.type obj_object) "Identifier"
             && Estree.name_is obj_object "process"
             && String.eqb (Estree.type obj_property) "Identifier"
             && Estree.name_is obj_property "env"
         | _, _ => false
         end
      && negb (Estree.computed expression)
  | None => false
  end.

(** The name the visitor passes on: [expression.property.name] when the
    condition holds. *)
Definition env_read (expression : Estree.Node) : option string :=
  if looks_like_process_env expression then
    match Estree.property expression with
    | Some p => Estree.name p
    | None => None
    end
  else None.

(** The visitor on one member expression of the module being parsed. *)
Definition visit_MemberExpression
  (this : Plugin) (knownEnvVars : list string) (module : Module)
  (expression : Estree.Node) : Plugin * list DebugCall :=
  match env_read expression with
  | Some name =>
      let '(this', dbg) :=
        MemberExpression this knownEnvVars
          {| event_name := name; event_module := module |} in
      (this', [dbg])
  | None => (this, [])
  end.

(** The [program] hook of [tapParser] for one module: the walker calls the
    visitor on the member expressions of the program, here in the order
    [visited]. *)
Fixpoint tapParser
  (this : Plugin) (knownEnvVars : list string) (module : Module)
  (visited : list Estree.Node) : Plugin * list DebugCall :=
  match visited with
  | [] => (this, [])
  | expression :: rest =>
      let '(this', log1) := visit_MemberExpression this knownEnvVars module expression in
      let '(this'', log2) := tapParser this' knownEnvVars module rest in
      (this'', log1 ++ log2)
  end.

(** The modules of one compilation, parsed one after the other. *)
Fixpoint parse_modules
  (this : Plugin) (knownEnvVars : list string)
  (programs : list (Module * list Estree.Node)) : Plugin * list DebugCall :=
  match programs with
  | [] => (this, [])
  | (module, visited) :: rest =>
      let '(this', log1) := tapParser this knownEnvVars module visited in
      let '(this'', log2) := parse_modules this' knownEnvVars rest in
      (this'', log1 ++ log2)
  end.

(** The accesses a list of visited expressions amounts to. *)
Definition events_of_module (module : Module) (visited : list Estree.Node)
  : list ScanEvent :=
  omap (fun expression =>
          match env_read expression with
          | Some name => Some {| event_name := name; event_module := module |}
          | None => None
          end) visited.

Definition events_of (programs : list (Module * list Estree.Node)) : list ScanEvent :=
  List.flat_map (fun p => events_of_module (fst p) (snd p)) programs.

(** An access the plugin reports when it is the first one to its name: the
    name is not known and the access is inside the scanned area and not
    exempt. *)
Definition reportable (this : Plugin) (knownEnvVars : list string) (ev : ScanEvent)
  : bool :=
  negb (Js.includes knownEnvVars (event_name ev)) && in_scope this ev.

(** An entry whose check does not depend on the heap: a string, or a
    regular expression without the [g] and [y] flags. *)
Definition stateless_entry (v : Js.value) : bool :=
  match v with
  | Js.RegExp _ _ global_or_sticky _ => negb global_or_sticky
  | _ => true
  end.

Definition stateless_option (v : Js.value) : bool :=
  match v with
  | Js.Array entries => forallb stateless_entry entries
  | _ => true
  end.

(** A check that answers the same in every heap and leaves the heap alone. *)
Definition pure_check (check : BooleanCheckFunc) : Prop :=
  forall input h, check input h = (fst (check input ∅), h).


(** An entry the predicate compiler accepts. *)
Definition string_or_regexp (v : Js.value) : bool :=
  match v with
  | Js.Str _ | Js.RegExp _ _ _ _ => true
  | _ => false
  end.

(** A descriptor that passes the required-field check: every required
    property is an own property holding a non-empty string. *)
Definition valid_descriptor (props : list (string * Js.value)) : Prop :=
  forall k, In k AWS_required ->
    In k (List.map fst props) /\ exists s, Js.get_prop props k = Js.Str s /\ s <> "".

Definition refer_to_documentation_message : string :=
  "bad env vars source configuration (refer to documentation)".

(** [process.env.NAME] and [process[env].NAME]. *)
Definition process_env_dot (envVar : string) : Estree.Node :=
  Estree.Static (Estree.Static (Estree.Identifier "process") "env" false) envVar false.

Definition process_env_bracket (key : Estree.Node) : Estree.Node :=
  Estree.Computed (Estree.Static (Estree.Identifier "process") "env" false) key.

(** ** Sanity checks of the embedding *)

Example strip_qualified : strip_process_env "process.env.FOO" = "FOO".
Proof. reflexivity. Qed.

Example strip_plain : strip_process_env "FOO" = "FOO".
Proof. reflexivity. Qed.

Example dotenv_two_lines :
  dotenv_lines ("A=1" +:+ LF +:+ "B=2")
  = Js.Return (Js.Object [("A", Js.Str "1"); ("B", Js.Str "2")]).
Proof. reflexivity. Qed.

Example quoted_required :
  toQuotedStringList AWS_required
  = "'region', 'secretId', 'secretAccessKey', 'accessKeyId'".
Proof. reflexivity. Qed.

Example constructor_default_known :
  option_map knownEnvVars
    (match snd (constructor local_runtime Js.Undefined) with
     | Js.Return this => Some this
     | Js.Throw _ => None
     end)
  = Some (Promise_resolve ["HOME"; "PATH"]).
Proof. reflexivity. Qed.

Example constructor_known_only :
  constructor local_runtime (Js.Object [("knownEnvVars", Js.Array [Js.Str "HOME"])])
  = ([], Js.Return (default_plugin ["HOME"])).
Proof. reflexivity. Qed.

Example env_read_dot : env_read (process_env_dot "PORT") = Some "PORT".
Proof. reflexivity. Qed.

Example env_read_bracket :
  env_read (process_env_bracket (Estree.Identifier "key")) = None.
Proof. reflexivity. Qed.

Example env_read_nested :
  env_read (Estree.Static (process_env_dot "PORT") "length" false) = None.
Proof. reflexivity. Qed.

(** The scenario of the test suite: one known name, one unknown, both read in
    an included file. *)
Example test_suite_scenario :
  match snd (constructor local_runtime
               (Js.Object [("includePaths", Js.Array [Js.Str "/src"]);
                           ("knownEnvVars", Js.Array [Js.Str "ENV_VAR_1"])])) with
  | Js.Return this =>
      apply true local_runtime this [read "ENV_VAR_1" src_a; read "ENV_VAR_2" src_a] []
      = Compiled [UnrecognisedEnvVarError "ENV_VAR_2" src_a]
                 [("ENV_VAR_1", "in knownEnvVars"); ("ENV_VAR_2", "unrecognised")]
  | Js.Throw _ => False
  end.
Proof. reflexivity. Qed.

(** A regular expression with the [g] flag keeps its [lastIndex] between
    calls.  In ignoreEnvVars it exempts the first read of BAR_BAZ and not the
    second; without the flag it exempts both. *)
Example global_ignore_entry :
  build local_runtime (ignoring_options true)
    [read "BAR_BAZ" src_a; read "BAR_BAZ" src_b]
  = Some (Compiled [UnrecognisedEnvVarError "BAR_BAZ" src_b]
            [("BAR_BAZ", "in ignoreEnvVars"); ("BAR_BAZ", "unrecognised")]) /\
  build local_runtime (ignoring_options false)
    [read "BAR_BAZ" src_a; read "BAR_BAZ" src_b]
  = Some (Compiled []
            [("BAR_BAZ", "in ignoreEnvVars"); ("BAR_BAZ", "in ignoreEnvVars")]).
Proof. split; reflexivity. Qed.

(** In includePaths it places the first read of a module inside the scanned
    area and the next read of the same module outside. *)
Example global_include_entry :
  build local_runtime global_include_options [read "C" src_a; read "D" src_a]
  = Some (Compiled [UnrecognisedEnvVarError "C" src_a]
            [("C", "unrecognised"); ("D", "outside includePaths")]).
Proof. reflexivity. Qed.

(** In excludePaths it excludes the first read of a generated module and
    not the second, which is recorded. *)
Example global_exclude_entry :
  build local_runtime global_exclude_options [read "X" gen_x; read "Y" gen_x]
  = Some (Compiled [UnrecognisedEnvVarError "Y" gen_x]
            [("X", "in excludePaths"); ("Y", "unrecognised")]).
Proof. reflexivity. Qed.

(** A number beyond the safe integers is printed by the engine, not digit
    by digit. *)
Example unsafe_number_entry :
  forall engine_number,
    Js.toString engine_number (Js.Number (10 ^ 21)) = engine_number (10 ^ 21)%Z /\
    Js.toString engine_number (Js.Number 42) = "42".
Proof. intros. split; reflexivity. Qed.

Example sample_engine_numbers :
  Js.Number_toString (10 ^ 21) = "1e+21" /\
  Js.Number_toString (2 ^ 63) = "9223372036854776000" /\
  Js.Number_toString (2 ^ 53) = "9007199254740992" /\
  Js.Number_toString (2 ^ 53 + 1) = "9007199254740992" /\
  Js.Number_toString (-(10 ^ 20)) = "-100000000000000000000" /\
  Js.Number_toString 123456789012345678901234567890 = "1.2345678901234568e+29" /\
  Js.Number_toString (-7) = "-7".
Proof. repeat split; vm_compute; reflexivity. Qed.

Example unsafe_number_message :
  _processStringOrRegexArrayInput local_runtime "ignoreEnvVars"
    (Js.Array [Js.Str "FOO"; Js.Number (10 ^ 21)]) ignoreEnvVars_stringCheck
  = Js.Throw (BadArgsError "expecting 1e+21 to be [String|RegExp]").
Proof. vm_compute. reflexivity. Qed.

(** ** Strings *)

Section StringFacts.

Lemma startsWith_app (p rest : string) : Js.startsWith (p +:+ rest) p = true.
Proof.
  induction p as [|c p IH]; simpl; [done|].
  by rewrite Ascii.eqb_refl, IH.
Qed.

Lemma drop_app (p rest : string) : Js.drop (String.length p) (p +:+ rest) = rest.
Proof. induction p as [|c p IH]; simpl; [by destruct rest|done]. Qed.

Lemma startsWith_split (s p : string) :
  Js.startsWith s p = true -> s = p +:+ Js.drop (String.length p) s.
Proof.
  revert s. induction p as [|c p IH]; intros s H; simpl in *.
  - by destruct s.
  - destruct s as [|i s]; [done|].
    apply andb_prop in H as [Hc Hs].
    apply Ascii.eqb_eq in Hc. subst i.
    change (String c s = String c (p +:+ Js.drop (String.length p) s)).
    f_equal. by apply IH.
Qed.

Lemma strip_qualified_name (name : string) :
  strip_process_env ("process.env." +:+ name) = name.
Proof.
  unfold strip_process_env.
  rewrite (startsWith_app "process.env." name).
  exact (drop_app "process.env." name).
Qed.

(** A literal that carries the qualifier equals the stripped candidate only
    for the candidate that carries the qualifier twice. *)
Lemma strip_hits_qualified (entry candidate : string) :
  Js.startsWith entry "process.env." = true ->
  (strip_process_env candidate = entry <-> candidate = "process.env." +:+ entry).
Proof.
  intros Hentry. split.
  - unfold strip_process_env.
    destruct (Js.startsWith candidate "process.env.") eqn:Hc; intros <-.
    + exact (startsWith_split _ "process.env." Hc).
    + congruence.
  - intros ->. apply strip_qualified_name.
Qed.

End StringFacts.

(** ** The [Map] of unrecognised names *)

Section MapFacts.

Context {V : Type}.
Implicit Types (m : Js.Map V) (k : string) (v : V).

Lemma Map_has_In m k : Js.Map_has m k = true <-> In k (List.map fst m).
Proof.
  unfold Js.Map_has. rewrite existsb_exists, in_map_iff. split.
  - intros (e & He & Heq). apply String.eqb_eq in Heq. by exists e.
  - intros (e & Heq & He). exists e. split; [done|]. by apply String.eqb_eq.
Qed.

Lemma Map_has_false m k : Js.Map_has m k = false <-> ~ In k (List.map fst m).
Proof.
  rewrite <- Map_has_In. destruct (Js.Map_has m k); split; congruence.
Qed.

(** Setting an absent key appends the entry. *)
Lemma Map_set_absent m k v : Js.Map_has m k = false -> Js.Map_set m k v = m ++ [(k, v)].
Proof.
  induction m as [|[k' v'] m IH]; simpl; [done|].
  intros H. apply orb_false_elim in H as [Hk Hm].
  rewrite Hk. f_equal. by apply IH.
Qed.

Lemma filter_none {A} (f : A -> bool) (l : list A) :
  (forall x, In x l -> f x = false) -> List.filter f l = [].
Proof.
  induction l as [|x l IH]; simpl; [done|].
  intros H. rewrite (H x) by by left. apply IH. intros y Hy. apply H. by right.
Qed.

(** In a list of entries with distinct keys, the entries for a key that is
    present are that single entry. *)
Lemma filter_key_unique (m : list (string * V)) k v :
  List.NoDup (List.map fst m) -> In (k, v) m ->
  List.filter (fun e => String.eqb (fst e) k) m = [(k, v)].
Proof.
  induction m as [|[k' v'] m IH]; simpl; [done|].
  intros Hnd Hin. apply List.NoDup_cons_iff in Hnd as [Hk' Hnd].
  destruct Hin as [[= -> ->]|Hin].
  - rewrite String.eqb_refl. f_equal.
    apply filter_none. intros [k2 v2] H2. simpl.
    apply String.eqb_neq. intros ->.
    apply Hk', in_map_iff. by exists (k, v2).
  - destruct (String.eqb_spec k' k) as [->|Hne]; [|by apply IH].
    exfalso. apply Hk', in_map_iff. by exists (k, v).
Qed.

Lemma filter_key_absent (m : list (string * V)) k :
  ~ In k (List.map fst m) ->
  List.filter (fun e => String.eqb (fst e) k) m = [].
Proof.
  intros Hk. apply filter_none. intros [k2 v2] H2. simpl.
  apply String.eqb_neq. intros ->.
  apply Hk, in_map_iff. by exists (k, v2).
Qed.

End MapFacts.

(** ** Recognition and scanning *)

Section Recognition.

Implicit Types (this : Plugin) (known : list string) (ev : ScanEvent).

Lemma includes_In known x : Js.includes known x = true <-> In x known.
Proof.
  unfold Js.includes. rewrite existsb_exists. split.
  - intros (y & Hy & Heq). apply String.eqb_eq in Heq. by subst.
  - intros H. exists x. split; [done|]. apply String.eqb_refl.
Qed.

(** The verdict is negative exactly when all five tests fail, the three
    lists of checks being run one after the other on the heap. *)
Lemma unrecognised_iff this known envVar modulePath :
  fst (fst (_isRecognisedEnvVar this known envVar modulePath)) = false <->
  Js.includes known envVar = false /\
  Js.Map_has (foundUnrecognisedEnvVars this) envVar = false /\
  fst (some_check (includePaths this) modulePath (lastIndexes this)) = true /\
  fst (some_check (excludePaths this) modulePath
         (snd (some_check (includePaths this) modulePath (lastIndexes this)))) = false /\
  fst (some_check (ignoreEnvVars this) envVar
         (snd (some_check (excludePaths this) modulePath
                 (snd (some_check (includePaths this) modulePath (lastIndexes this))))))
  = false.
Proof.
  unfold _isRecognisedEnvVar. cbv zeta.
  destruct (Js.includes known envVar), (Js.Map_has _ envVar).
  all: repeat match goal with
       | |- context [fst (some_check ?c ?i ?h)] => destruct (fst (some_check c i h))
       end.
  all: simpl; intuition congruence.
Qed.

Lemma unrecognised_in_scope this known ev :
  fst (fst (_isRecognisedEnvVar this known (event_name ev) (userRequest (event_module ev))))
  = false <->
  Js.includes known (event_name ev) = false /\
  Js.Map_has (foundUnrecognisedEnvVars this) (event_name ev) = false /\
  in_scope this ev = true.
Proof.
  rewrite unrecognised_iff. unfold in_scope. cbv zeta.
  repeat match goal with
         | |- context [fst (some_check ?c ?i ?h)] => destruct (fst (some_check c i h))
         end; simpl; intuition congruence.
Qed.

Lemma debug_names_envVar this known envVar modulePath :
  fst (snd (fst (_isRecognisedEnvVar this known envVar modulePath))) = envVar.
Proof.
  unfold _isRecognisedEnvVar. cbv zeta.
  by repeat match goal with |- context [if ?b then _ else _] => destruct b end.
Qed.

Lemma debug_unrecognised this known envVar modulePath :
  snd (snd (fst (_isRecognisedEnvVar this known envVar modulePath))) = "unrecognised" <->
  fst (fst (_isRecognisedEnvVar this known envVar modulePath)) = false.
Proof.
  unfold _isRecognisedEnvVar. cbv zeta.
  repeat match goal with |- context [if ?b then _ else _] => destruct b end;
    simpl; split; congruence.
Qed.

(** The visitor leaves the record alone on a positive verdict and appends the
    entry on a negative one. *)
Lemma MemberExpression_found this known ev :
  foundUnrecognisedEnvVars (fst (MemberExpression this known ev)) =
  if fst (fst (_isRecognisedEnvVar this known (event_name ev) (userRequest (event_module ev))))
  then foundUnrecognisedEnvVars this
  else foundUnrecognisedEnvVars this ++ [(event_name ev, event_module ev)].
Proof.
  unfold MemberExpression.
  destruct (_isRecognisedEnvVar _ _ _ _) as [[[] dbg] h] eqn:E; simpl; [done|].
  apply Map_set_absent.
  apply (f_equal (fun r => fst (fst r))) in E. simpl in E.
  by apply unrecognised_iff in E as (_ & ? & _).
Qed.

Lemma MemberExpression_debug this known ev :
  snd (MemberExpression this known ev) =
  snd (fst (_isRecognisedEnvVar this known (event_name ev) (userRequest (event_module ev)))).
Proof.
  unfold MemberExpression. by destruct (_isRecognisedEnvVar _ _ _ _) as [[[] dbg] h].
Qed.

Lemma MemberExpression_heap this known ev :
  lastIndexes (fst (MemberExpression this known ev)) =
  snd (_isRecognisedEnvVar this known (event_name ev) (userRequest (event_module ev))).
Proof.
  unfold MemberExpression. by destruct (_isRecognisedEnvVar _ _ _ _) as [[[] dbg] h].
Qed.

Lemma MemberExpression_static this known ev :
  includePaths (fst (MemberExpression this known ev)) = includePaths this /\
  excludePaths (fst (MemberExpression this known ev)) = excludePaths this /\
  ignoreEnvVars (fst (MemberExpression this known ev)) = ignoreEnvVars this.
Proof.
  unfold MemberExpression. by destruct (_isRecognisedEnvVar _ _ _ _) as [[[] dbg] h].
Qed.

Lemma scan_cons this known ev events :
  scan this known (ev :: events) =
  (fst (scan (fst (MemberExpression this known ev)) known events),
   snd (MemberExpression this known ev)
     :: snd (scan (fst (MemberExpression this known ev)) known events)).
Proof.
  cbn [scan]. destruct (MemberExpression this known ev) as [this' dbg].
  cbn [fst snd]. by destruct (scan this' known events).
Qed.

Lemma scan_app this known pre post :
  scan this known (pre ++ post) =
  (fst (scan (fst (scan this known pre)) known post),
   snd (scan this known pre) ++ snd (scan (fst (scan this known pre)) known post)).
Proof.
  revert this. induction pre as [|ev pre IH]; intros this.
  - simpl. by destruct (scan this known post).
  - rewrite <- app_comm_cons, !scan_cons, IH. done.
Qed.

Lemma scan_static this known events :
  includePaths (fst (scan this known events)) = includePaths this /\
  excludePaths (fst (scan this known events)) = excludePaths this /\
  ignoreEnvVars (fst (scan this known events)) = ignoreEnvVars this.
Proof.
  revert this. induction events as [|ev events IH]; intros this; [done|].
  rewrite scan_cons. simpl.
  destruct (IH (fst (MemberExpression this known ev))) as (-> & -> & ->).
  apply MemberExpression_static.
Qed.

(** Scanning only ever appends entries, and keeps the names distinct. *)
Lemma scan_extends this known events :
  List.NoDup (List.map fst (foundUnrecognisedEnvVars this)) ->
  exists extra,
    foundUnrecognisedEnvVars (fst (scan this known events))
    = foundUnrecognisedEnvVars this ++ extra /\
    List.NoDup (List.map fst (foundUnrecognisedEnvVars this ++ extra)).
Proof.
  revert this. induction events as [|ev events IH]; intros this Hnd.
  - exists []. simpl. by rewrite app_nil_r.
  - rewrite scan_cons. simpl.
    pose proof (MemberExpression_found this known ev) as Hstep.
    destruct (fst (fst (_isRecognisedEnvVar this known _ _))) eqn:E.
    + destruct (IH (fst (MemberExpression this known ev))) as (extra & Hx & Hnd');
        rewrite Hstep in *; eauto.
    + apply unrecognised_iff in E as (_ & Habs & _).
      apply Map_has_false in Habs.
      destruct (IH (fst (MemberExpression this known ev))) as (extra & Hx & Hnd').
      * rewrite Hstep, List.map_app. simpl.
        apply List.NoDup_app; repeat split; auto.
        -- constructor; [by intros []|constructor].
        -- intros x Hx [<-|[]]. done.
      * rewrite Hstep, <- app_assoc in *. eauto.
Qed.

Lemma diagnostics_about_found envVar this :
  diagnostics_about envVar (diagnostics this) =
  List.map (fun e => UnrecognisedEnvVarError (fst e) (snd e))
    (List.filter (fun e => String.eqb (fst e) envVar) (foundUnrecognisedEnvVars this)).
Proof.
  unfold diagnostics_about, diagnostics, Js.Map_entries.
  induction (foundUnrecognisedEnvVars this) as [|[k m] l IH]; simpl; [done|].
  change (String.eqb ("" +:+ k) ("" +:+ envVar)) with (String.eqb k envVar).
  rewrite IH. by destruct (String.eqb k envVar).
Qed.

End Recognition.

(** ** The debug log of a scan *)

Section DebugLog.

Implicit Types (this : Plugin) (known : list string) (ev : ScanEvent).

Lemma scan_keeps_name this known events envVar :
  List.NoDup (List.map fst (foundUnrecognisedEnvVars this)) ->
  Js.Map_has (foundUnrecognisedEnvVars this) envVar = true ->
  Js.Map_has (foundUnrecognisedEnvVars (fst (scan this known events))) envVar = true.
Proof.
  intros Hnd Hin.
  destruct (scan_extends this known events Hnd) as (extra & -> & _).
  apply Map_has_In. rewrite List.map_app. apply in_or_app. left.
  by apply Map_has_In.
Qed.

Lemma MemberExpression_NoDup this known ev :
  List.NoDup (List.map fst (foundUnrecognisedEnvVars this)) ->
  List.NoDup (List.map fst (foundUnrecognisedEnvVars (fst (MemberExpression this known ev)))).
Proof.
  intros Hnd.
  destruct (scan_extends this known [ev] Hnd) as (extra & Hx & Hnd').
  rewrite scan_cons in Hx. simpl in Hx. by rewrite Hx.
Qed.

(** One step writes [debug(envVar, "unrecognised")] only for the name it is
    about to record. *)
Lemma step_unrecognised_call this known ev envVar :
  (String.eqb (fst (snd (MemberExpression this known ev))) envVar
   && String.eqb (snd (snd (MemberExpression this known ev))) "unrecognised") = true ->
  event_name ev = envVar /\
  fst (fst (_isRecognisedEnvVar this known (event_name ev) (userRequest (event_module ev))))
  = false.
Proof.
  rewrite MemberExpression_debug, debug_names_envVar.
  intros H. apply andb_prop in H as [Hn Hr].
  apply String.eqb_eq in Hn, Hr. split; [done|]. by apply debug_unrecognised.
Qed.

(** A name that is not in the record after a scan was never reported as
    unrecognised during it. *)
Lemma absent_never_reported this known events envVar :
  List.NoDup (List.map fst (foundUnrecognisedEnvVars this)) ->
  Js.Map_has (foundUnrecognisedEnvVars (fst (scan this known events))) envVar = false ->
  unrecognised_calls envVar (snd (scan this known events)) = [].
Proof.
  revert this. induction events as [|ev events IH]; intros this Hnd Habs; [done|].
  rewrite scan_cons in *. cbn [fst snd] in *.
  pose proof (MemberExpression_NoDup this known ev Hnd) as Hnd'.
  unfold unrecognised_calls. cbn [List.filter].
  destruct (_ && _) eqn:Hcall; [|by apply IH].
  apply step_unrecognised_call in Hcall as [<- Hneg].
  exfalso.
  assert (Js.Map_has (foundUnrecognisedEnvVars (fst (MemberExpression this known ev)))
            (event_name ev) = true) as Hnow.
  { rewrite MemberExpression_found, Hneg. apply Map_has_In.
    rewrite List.map_app. apply in_or_app. right. by left. }
  pose proof (scan_keeps_name _ known events _ Hnd' Hnow). congruence.
Qed.

(** A name already in the record is never reported again. *)
Lemma present_never_reported this known events envVar :
  List.NoDup (List.map fst (foundUnrecognisedEnvVars this)) ->
  Js.Map_has (foundUnrecognisedEnvVars this) envVar = true ->
  unrecognised_calls envVar (snd (scan this known events)) = [].
Proof.
  revert this. induction events as [|ev events IH]; intros this Hnd Hin; [done|].
  rewrite scan_cons. cbn [fst snd].
  pose proof (MemberExpression_NoDup this known ev Hnd) as Hnd'.
  unfold unrecognised_calls. cbn [List.filter].
  destruct (_ && _) eqn:Hcall.
  - apply step_unrecognised_call in Hcall as [<- Hneg].
    apply unrecognised_iff in Hneg as (_ & Habs & _). congruence.
  - apply IH; [done|].
    pose proof (scan_keeps_name this known [ev] envVar Hnd Hin) as H.
    by rewrite scan_cons in H.
Qed.

Lemma unrecognised_calls_app envVar (l1 l2 : list DebugCall) :
  unrecognised_calls envVar (l1 ++ l2) =
  unrecognised_calls envVar l1 ++ unrecognised_calls envVar l2.
Proof. apply List.filter_app. Qed.

(** The state of the record after the first unrecognised access to a name:
    the name is attributed to the module of that access, once, for the rest
    of the scan. *)
Lemma first_access_recorded this known pre ev post :
  List.NoDup (List.map fst (foundUnrecognisedEnvVars this)) ->
  fst (fst (_isRecognisedEnvVar (fst (scan this known pre)) known
         (event_name ev) (userRequest (event_module ev)))) = false ->
  let final := fst (scan this known (pre ++ ev :: post)) in
  List.NoDup (List.map fst (foundUnrecognisedEnvVars final)) /\
  List.filter (fun e => String.eqb (fst e) (event_name ev))
    (foundUnrecognisedEnvVars final) = [(event_name ev, event_module ev)] /\
  unrecognised_calls (event_name ev) (snd (scan this known (pre ++ ev :: post)))
  = [(event_name ev, "unrecognised")].
Proof.
  intros Hnd Hneg final. subst final.
  rewrite scan_app, scan_cons. cbn [fst snd].
  set (mid := fst (scan this known pre)) in *.
  assert (List.NoDup (List.map fst (foundUnrecognisedEnvVars mid))) as Hmid.
  { destruct (scan_extends this known pre Hnd) as (x & Hx & Hx'). subst mid.
    by rewrite Hx. }
  pose proof (MemberExpression_NoDup mid known ev Hmid) as Hnext.
  pose proof (MemberExpression_found mid known ev) as Hfound.
  rewrite Hneg in Hfound.
  set (next := fst (MemberExpression mid known ev)) in *.
  destruct (scan_extends next known post Hnext) as (extra & Hx & Hfinal).
  rewrite Hx. split; [done|]. split.
  - apply filter_key_unique; [done|].
    rewrite Hfound. apply in_or_app. left. apply in_or_app. right. by left.
  - rewrite unrecognised_calls_app.
    rewrite (absent_never_reported this known pre _ Hnd)
      by (by apply unrecognised_iff in Hneg as (_ & ? & _)).
    unfold unrecognised_calls at 1. cbn [List.filter app].
    rewrite MemberExpression_debug.
    pose proof (debug_names_envVar mid known (event_name ev)
                  (userRequest (event_module ev))) as Hn.
    pose proof (proj2 (debug_unrecognised mid known (event_name ev)
                  (userRequest (event_module ev))) Hneg) as Hr.
    destruct (_isRecognisedEnvVar mid known _ _) as [[b [n r]] h].
    simpl in Hn, Hr. subst n r. cbn [fst snd].
    rewrite !String.eqb_refl. cbn [andb]. f_equal.
    apply present_never_reported; [done|].
    apply Map_has_In. rewrite Hfound, List.map_app.
    apply in_or_app. right. by left.
Qed.

End DebugLog.

(** ** What the constructor establishes *)

Lemma constructor_inv rt options this :
  snd (constructor rt options) = Js.Return this ->
  knownEnvVarsTimeout this = 5000%Z /\
  foundUnrecognisedEnvVars this = [] /\
  _processKnownEnvVars rt (Js.get options "knownEnvVars") = Js.Return (knownEnvVars this) /\
  _processStringOrRegexArrayInput rt "ignoreEnvVars" (Js.get options "ignoreEnvVars")
    ignoreEnvVars_stringCheck = Js.Return (ignoreEnvVars this) /\
  _processStringOrRegexArrayInput rt "includePaths" (Js.get options "includePaths")
    paths_stringCheck = Js.Return (includePaths this) /\
  _processStringOrRegexArrayInput rt "excludePaths" (Js.get options "excludePaths")
    paths_stringCheck = Js.Return (excludePaths this).
Proof.
  unfold constructor, options_get.
  destruct options; cbn [snd Js.bind Js.get Js.get_prop]; try discriminate.
  all: destruct (_processKnownEnvVars rt _); cbn [Js.bind]; try discriminate.
  all: do 3 (match goal with
             | |- context [Js.bind (_processStringOrRegexArrayInput ?r ?n ?v ?f) _] =>
                 destruct (_processStringOrRegexArrayInput r n v f)
             end; cbn [Js.bind]; try discriminate).
  all: by intros [= <-].
Qed.

Lemma constructor_heap rt options this :
  snd (constructor rt options) = Js.Return this ->
  lastIndexes this = regexp_lastIndex rt.
Proof.
  unfold constructor, options_get.
  destruct options; cbn [snd Js.bind Js.get Js.get_prop]; try discriminate.
  all: destruct (_processKnownEnvVars rt _); cbn [Js.bind]; try discriminate.
  all: do 3 (match goal with
             | |- context [Js.bind (_processStringOrRegexArrayInput ?r ?n ?v ?f) _] =>
                 destruct (_processStringOrRegexArrayInput r n v f)
             end; cbn [Js.bind]; try discriminate).
  all: by intros [= <-].
Qed.

Lemma set_lastIndexes_same this : set_lastIndexes this (lastIndexes this) = this.
Proof. by destruct this. Qed.

Lemma no_includePaths_compiled rt (v : Js.value) checks :
  v = Js.Undefined \/ v = Js.Array [] ->
  _processStringOrRegexArrayInput rt "includePaths" v paths_stringCheck = Js.Return checks ->
  checks = [].
Proof. by intros [-> | ->]; intros [= <-]. Qed.

Lemma at_most_one_entry {V} (m : list (string * V)) k :
  List.NoDup (List.map fst m) ->
  length (List.filter (fun e => String.eqb (fst e) k) m) <= 1.
Proof.
  intros Hnd. destruct (Js.Map_has m k) eqn:E.
  - apply Map_has_In, in_map_iff in E as ([k' v] & Heq & Hin).
    simpl in Heq. subst k'.
    by rewrite (filter_key_unique m k v Hnd Hin).
  - apply Map_has_false in E. rewrite filter_key_absent by done. simpl. lia.
Qed.

(** ** The claims about recognition *)

(** C1, as the code has it.  For every plugin state, known list and access, the
    verdict, the reason passed to [debug], the heap and the record afterwards
    are those of the first rule that holds in the order: name in the known
    list, name already in the record, no include predicate matches the module
    path, some exclude predicate matches it, some ignore predicate matches
    the name, each rule tested only when the ones before it failed; when none
    holds the verdict is negative and the entry (name, module) is appended to
    the record.  The third rule carries no "includePaths is non-empty"
    guard. *)
Theorem C1_decision_order_unguarded this known ev :
  performed this known ev = prescribed false this known ev.
Proof.
  unfold performed, prescribed. rewrite MemberExpression_found.
  unfold _isRecognisedEnvVar, decision_order. cbv zeta.
  cbn [first_match rule_holds].
  destruct (Js.includes known (event_name ev)); [done|].
  destruct (Js.Map_has (foundUnrecognisedEnvVars this) (event_name ev)); [done|].
  cbn [andb].
  destruct (some_check (includePaths this) _ _) as [[] h1]; cbn [fst snd negb]; [|done].
  destruct (some_check (excludePaths this) _ _) as [[] h2]; cbn [fst snd]; [done|].
  by destruct (some_check (ignoreEnvVars this) _ _) as [[] h3].
Qed.

(** C1 as stated fails: with no includePaths configured the guarded table
    finds no rule for an unknown name and prescribes a negative verdict with
    an insertion, while the code answers "outside includePaths" and records
    nothing. *)
Lemma C1_guarded_order_refuted :
  prescribed true (default_plugin []) [] (read "UNKNOWN" src_a)
  = (false, ("UNKNOWN", "unrecognised"), ∅, [("UNKNOWN", src_a)]) /\
  performed (default_plugin []) [] (read "UNKNOWN" src_a)
  = (true, ("UNKNOWN", "outside includePaths"), ∅, []).
Proof. split; reflexivity. Qed.

(** C2, as the code has it.  When includePaths is absent or empty, no include
    predicate exists, so every access is classified recognised, the record
    never changes and no diagnostic is produced; a negative verdict, in any
    state, needs an include predicate that matches the module path. *)
Theorem C2_empty_includePaths_reports_nothing rt options this known events :
  snd (constructor rt options) = Js.Return this ->
  Js.get options "includePaths" = Js.Undefined \/
  Js.get options "includePaths" = Js.Array [] ->
  (forall envVar modulePath,
     fst (fst (_isRecognisedEnvVar this known envVar modulePath)) = true) /\
  fst (scan this known events) = this /\
  unrecognised_calls_total (snd (scan this known events)) = [] /\
  afterCompile (fst (scan this known events)) [] = [] /\
  (forall that envVar modulePath,
     fst (fst (_isRecognisedEnvVar that known envVar modulePath)) = false ->
     fst (some_check (includePaths that) modulePath (lastIndexes that)) = true).
Proof.
  intros Hc Hopt.
  apply constructor_inv in Hc as (_ & Hfound & _ & _ & Hinc & _).
  apply (no_includePaths_compiled _ _ _ Hopt) in Hinc.
  assert (forall envVar modulePath,
            fst (fst (_isRecognisedEnvVar this known envVar modulePath)) = true) as Hall.
  { intros envVar modulePath.
    destruct (fst (fst (_isRecognisedEnvVar this known envVar modulePath))) eqn:E; [done|].
    apply unrecognised_iff in E as (_ & _ & E & _). by rewrite Hinc in E. }
  assert (forall evs, scan this known evs = (this, snd (scan this known evs))
                      /\ unrecognised_calls_total (snd (scan this known evs)) = [])
    as Hscan.
  { induction evs as [|ev evs [IH1 IH2]]; [done|].
    rewrite scan_cons.
    assert (MemberExpression this known ev
            = (this, snd (fst (_isRecognisedEnvVar this known (event_name ev)
                            (userRequest (event_module ev)))))) as Hstep.
    { unfold MemberExpression, _isRecognisedEnvVar. cbv zeta. rewrite Hinc.
      cbn [some_check fst snd negb].
      by destruct (Js.includes known (event_name ev)),
                  (Js.Map_has (foundUnrecognisedEnvVars this) (event_name ev));
        cbn [negb fst snd]; rewrite set_lastIndexes_same. }
    rewrite Hstep. cbn [fst snd]. rewrite IH1 at 1. cbn [fst]. split; [done|].
    unfold unrecognised_calls_total in *. cbn [List.filter].
    rewrite IH2.
    destruct (String.eqb_spec
                (snd (snd (fst (_isRecognisedEnvVar this known (event_name ev)
                             (userRequest (event_module ev)))))) "unrecognised")
      as [Hr|]; [|done].
    apply debug_unrecognised in Hr. by rewrite Hall in Hr. }
  destruct (Hscan events) as [Hs Hlog].
  repeat split; try done.
  - by rewrite Hs.
  - rewrite Hs. cbn [fst]. unfold afterCompile, diagnostics, Js.Map_entries.
    by rewrite Hfound.
  - intros that envVar modulePath E. by apply unrecognised_iff in E as (_ & _ & E & _).
Qed.

Lemma C2_empty_includePaths_witness :
  afterCompile (fst (scan (default_plugin ["HOME"]) ["HOME"] [read "UNKNOWN" src_a])) []
  = [].
Proof.
  refine (proj1 (proj2 (proj2 (proj2
    (C2_empty_includePaths_reports_nothing local_runtime
       (Js.Object [("knownEnvVars", Js.Array [Js.Str "HOME"])])
       (default_plugin ["HOME"]) ["HOME"] [read "UNKNOWN" src_a] _ _))))).
  - reflexivity.
  - left. reflexivity.
Defined.

(** C2 as stated fails: the default instance classifies an unknown, not
    ignored, not excluded name as recognised and reports nothing. *)
Lemma C2_default_scans_everything_refuted :
  ~ (forall this known ev,
       includePaths this = [] ->
       Js.includes known (event_name ev) = false ->
       (forall h, fst (some_check (excludePaths this) (userRequest (event_module ev)) h)
                  = false) ->
       (forall h, fst (some_check (ignoreEnvVars this) (event_name ev) h) = false) ->
       fst (fst (_isRecognisedEnvVar this known (event_name ev)
              (userRequest (event_module ev)))) = false /\
       diagnostics_about (event_name ev)
         (afterCompile (fst (scan this known [ev])) []) <> []).
Proof.
  intros H.
  destruct (H (default_plugin []) [] (read "UNKNOWN" src_a)) as [Hv _];
    try reflexivity; try (intros; reflexivity).
  discriminate Hv.
Qed.

(** C3.  In a build that starts from a freshly constructed plugin, take any
    access that is classified unrecognised.  At the end of the scan exactly
    one diagnostic reports its name, and it carries the module of that
    access; that access is the only one of the whole scan reported as
    unrecognised for the name, however many accesses to the name come before
    or after it and from whatever modules; and no name has more than one
    diagnostic. *)
Theorem C3_one_diagnostic_first_module rt options this known pre ev post :
  snd (constructor rt options) = Js.Return this ->
  fst (fst (_isRecognisedEnvVar (fst (scan this known pre)) known
         (event_name ev) (userRequest (event_module ev)))) = false ->
  diagnostics_about (event_name ev)
    (afterCompile (fst (scan this known (pre ++ ev :: post))) [])
  = [UnrecognisedEnvVarError (event_name ev) (event_module ev)] /\
  unrecognised_calls (event_name ev) (snd (scan this known (pre ++ ev :: post)))
  = [(event_name ev, "unrecognised")] /\
  (forall envVar,
     length (diagnostics_about envVar
               (afterCompile (fst (scan this known (pre ++ ev :: post))) [])) <= 1).
Proof.
  intros Hc Hneg.
  apply constructor_inv in Hc as (_ & Hfound & _).
  assert (List.NoDup (List.map fst (foundUnrecognisedEnvVars this))) as Hnd
    by (rewrite Hfound; constructor).
  destruct (first_access_recorded this known pre ev post Hnd Hneg)
    as (Hfinal & Hentry & Hlog).
  unfold afterCompile. cbn [app].
  split; [|split; [done|]].
  - by rewrite diagnostics_about_found, Hentry.
  - intros envVar. rewrite diagnostics_about_found, List.length_map.
    by apply at_most_one_entry.
Qed.

Lemma C3_one_diagnostic_witness :
  diagnostics_about "SECRET"
    (afterCompile
       (fst (scan (default_plugin_including "/src" ["HOME"]) ["HOME"]
               ([read "HOME" src_a] ++ read "SECRET" src_b
                  :: [read "SECRET" src_a; read "SECRET" src_b]))) [])
  = [UnrecognisedEnvVarError "SECRET" src_b].
Proof.
  refine (proj1
    (C3_one_diagnostic_first_module local_runtime
       (Js.Object [("knownEnvVars", Js.Array [Js.Str "HOME"]);
                   ("includePaths", Js.Array [Js.Str "/src"])])
       (default_plugin_including "/src" ["HOME"]) ["HOME"]
       [read "HOME" src_a] (read "SECRET" src_b)
       [read "SECRET" src_a; read "SECRET" src_b] _ _)).
  - reflexivity.
  - reflexivity.
Defined.

(** ** Resolving the known names *)

Section SourceResolution.

Variable rt : Runtime.

Lemma notStringOrNoLength_false (v : Js.value) :
  notStringOrNoLength v = false <-> exists s, v = Js.Str s /\ s <> "".
Proof.
  split.
  - destruct v as [| | | |s| | |]; try discriminate.
    destruct s; [discriminate|]. intros _. by eexists.
  - intros (s & -> & Hs). by destruct s.
Qed.

Lemma find_first {A} (f : A -> bool) (pre post : list A) (x : A) :
  Forall (fun y => f y = false) pre -> f x = true ->
  List.find f (pre ++ x :: post) = Some x.
Proof.
  induction 1 as [|y pre Hy _ IH]; intros Hx; simpl.
  - by rewrite Hx.
  - rewrite Hy. by apply IH.
Qed.

Lemma forallb_false_witness {A} (f : A -> bool) (l : list A) (x : A) :
  In x l -> f x = false -> forallb f l = false.
Proof.
  intros Hin Hx. destruct (forallb f l) eqn:E; [|done].
  rewrite forallb_forall in E. by rewrite (E x Hin) in Hx.
Qed.

(** An exception from [_processKnownEnvVars] leaves the constructor before any
    request is sent. *)
Lemma constructor_throws options source err :
  Js.get options "knownEnvVars" = source ->
  source <> Js.Undefined ->
  _processKnownEnvVars rt source = Js.Throw err ->
  constructor rt options = ([], Js.Throw err).
Proof.
  intros Hget Hsrc Hthrow. unfold constructor, options_get.
  destruct options; simpl in Hget; try congruence.
  cbn [Js.bind Js.get]. by rewrite Hget, Hthrow.
Qed.

Lemma partial_descriptor_throws props :
  (exists f, In f AWS_required /\ In f (List.map fst props)) ->
  (exists f, In f AWS_required /\ ~ In f (List.map fst props)) ->
  _processKnownEnvVars rt (Js.Object props)
  = Js.Throw (BadArgsError requires_properties_message).
Proof.
  intros (f & Hf & Hhas) (g & Hg & Hmiss).
  unfold _processKnownEnvVars, isAWSSecretsManagerSource, createExternalSourceCheck.
  cbn [Js.truthy negb Js.isArray Js.typeof orb String.eqb].
  unfold hasAllProperties, hasPartialProperties. cbn [Js.Object_keys Js.bind].
  rewrite (forallb_false_witness _ _ g Hg).
  2:{ destruct (Js.includes (List.map fst props) g) eqn:E; [|done].
      by apply includes_In in E. }
  assert (existsb (fun k => Js.includes AWS_required k) (List.map fst props) = true) as ->.
  { apply existsb_exists. exists f. split; [done|]. by apply includes_In. }
  reflexivity.
Qed.

Lemma offending_field_throws props pre field post :
  (forall f, In f AWS_required -> In f (List.map fst props)) ->
  AWS_required = pre ++ field :: post ->
  Forall (fun k => exists s, Js.get_prop props k = Js.Str s /\ s <> "") pre ->
  (forall s, Js.get_prop props field = Js.Str s -> s = "") ->
  _processKnownEnvVars rt (Js.Object props)
  = Js.Throw (BadArgsError (missing_value_message field)).
Proof.
  intros Hall Hsplit Hpre Hfield.
  unfold _processKnownEnvVars, isAWSSecretsManagerSource, createExternalSourceCheck.
  cbn [Js.truthy negb Js.isArray Js.typeof orb String.eqb].
  unfold hasAllProperties. cbn [Js.Object_keys Js.bind].
  assert (forallb (fun k => Js.includes (List.map fst props) k) AWS_required = true) as ->.
  { apply forallb_forall. intros k Hk. by apply includes_In, Hall. }
  rewrite Hsplit at 1. cbn [Js.get].
  rewrite find_first.
  - assert (In field AWS_required) as Hin
      by (rewrite Hsplit; apply in_or_app; right; by left).
    unfold AWS_required in Hin. simpl in Hin.
    by destruct Hin as [<-|[<-|[<-|[<-|[]]]]].
  - eapply Forall_impl; [exact Hpre|]. intros k Hk. by apply notStringOrNoLength_false.
  - destruct (notStringOrNoLength (Js.get_prop props field)) eqn:E; [done|].
    apply notStringOrNoLength_false in E as (s & Hs & Hne). by apply Hfield in Hs.
Qed.

Lemma strings_resolve names :
  Js.map_throwing knownEnvVars_element (List.map Js.Str names)
  = Js.Return (List.map strip_process_env names).
Proof.
  induction names as [|n names IH]; [done|]. simpl. by rewrite IH.
Qed.

Lemma non_string_throws elems :
  Exists (fun v => forall s, v <> Js.Str s) elems ->
  Js.map_throwing knownEnvVars_element elems
  = Js.Throw (BadArgsError not_all_strings_message).
Proof.
  induction elems as [|v elems IH]; intros H; [by inversion H|].
  destruct v as [| | | |s| | |]; simpl; try done.
  inversion H as [? ? Hv|? ? Hrest]; subst.
  - by destruct (Hv s).
  - by rewrite (IH Hrest).
Qed.

(** The array as the set it stands for. *)
Lemma stripped_set names :
  (list_to_set (List.map strip_process_env names) : gset string)
  = set_map strip_process_env (list_to_set names : gset string).
Proof.
  apply set_eq. intros x.
  rewrite elem_of_list_to_set, elem_of_map, list_elem_of_In, in_map_iff.
  split.
  - intros (n & <- & Hn). exists n. split; [done|].
    by apply elem_of_list_to_set, list_elem_of_In.
  - intros (n & -> & Hn). exists n. split; [done|].
    by apply list_elem_of_In, (elem_of_list_to_set (C:=gset string)).
Qed.

End SourceResolution.

(** ** The claims about the sources *)

(** C6, as the code has it.  A descriptor object that owns at least one but
    not all of the four required properties makes [_processKnownEnvVars]
    throw a BadArgsError whose message lists all four required property
    names, whichever of them are missing; the constructor throws it without
    having sent a request to the secret store. *)
Theorem C6_partial_descriptor_lists_all_required rt props :
  (exists f, In f AWS_required /\ In f (List.map fst props)) ->
  (exists f, In f AWS_required /\ ~ In f (List.map fst props)) ->
  _processKnownEnvVars rt (Js.Object props)
  = Js.Throw (BadArgsError requires_properties_message) /\
  (forall f, In f AWS_required -> names_field requires_properties_message f = true) /\
  (forall options,
     Js.get options "knownEnvVars" = Js.Object props ->
     constructor rt options = ([], Js.Throw (BadArgsError requires_properties_message))).
Proof.
  intros Hsome Hmissing.
  pose proof (partial_descriptor_throws rt props Hsome Hmissing) as Hthrow.
  split; [done|]. split.
  - intros f Hf. unfold AWS_required in Hf. simpl in Hf.
    by destruct Hf as [<-|[<-|[<-|[<-|[]]]]].
  - intros options Hget. by eapply constructor_throws.
Qed.

Lemma C6_partial_descriptor_witness :
  constructor local_runtime
    (Js.Object [("knownEnvVars",
                 Js.Object [("region", Js.Str "eu-west-1"); ("secretId", Js.Str "api")])])
  = ([], Js.Throw (BadArgsError requires_properties_message)).
Proof.
  refine (proj2 (proj2
    (C6_partial_descriptor_lists_all_required local_runtime
       [("region", Js.Str "eu-west-1"); ("secretId", Js.Str "api")] _ _)) _ _).
  - exists "region". split; simpl; auto.
  - exists "accessKeyId". split; [simpl; auto|].
    simpl. intros [H|[H|[]]]; discriminate H.
  - reflexivity.
Defined.

(** C6 as stated fails: for a descriptor with only region and secretId the
    message also names 'region', which is present, so it does not name
    exactly the missing properties. *)
Lemma C6_names_exactly_missing_refuted :
  ~ (forall rt props,
       (exists f, In f AWS_required /\ In f (List.map fst props)) ->
       (exists f, In f AWS_required /\ ~ In f (List.map fst props)) ->
       exists msg,
         _processKnownEnvVars rt (Js.Object props) = Js.Throw (BadArgsError msg) /\
         forall f, In f AWS_required ->
                   (names_field msg f = true <-> ~ In f (List.map fst props))).
Proof.
  intros H.
  destruct (H local_runtime [("region", Js.Str "eu-west-1"); ("secretId", Js.Str "api")])
    as (msg & Hthrow & Hnames).
  - exists "region". split; simpl; auto.
  - exists "accessKeyId". split; [simpl; auto|].
    simpl. intros [E|[E|[]]]; discriminate E.
  - vm_compute in Hthrow. injection Hthrow as <-.
    apply (proj1 (Hnames "region" ltac:(simpl; auto))); [reflexivity|].
    simpl. auto.
Qed.

(** C7.  A descriptor object that owns all four required properties, one of
    which does not hold a non-empty string, makes [_processKnownEnvVars] throw
    a BadArgsError whose message is "bad AWS SecretsManager source
    configuration (missing value for property '<field>')" for the first such
    field in the order region, secretId, secretAccessKey, accessKeyId; the
    constructor throws it without having sent a request. *)
Theorem C7_first_offending_field rt props pre field post :
  (forall f, In f AWS_required -> In f (List.map fst props)) ->
  AWS_required = pre ++ field :: post ->
  Forall (fun k => exists s, Js.get_prop props k = Js.Str s /\ s <> "") pre ->
  (forall s, Js.get_prop props field = Js.Str s -> s = "") ->
  _processKnownEnvVars rt (Js.Object props)
  = Js.Throw (BadArgsError (missing_value_message field)) /\
  (forall options,
     Js.get options "knownEnvVars" = Js.Object props ->
     constructor rt options = ([], Js.Throw (BadArgsError (missing_value_message field)))).
Proof.
  intros Hall Hsplit Hpre Hfield.
  pose proof (offending_field_throws rt props pre field post Hall Hsplit Hpre Hfield)
    as Hthrow.
  split; [done|]. intros options Hget. by eapply constructor_throws.
Qed.

Lemma C7_first_offending_field_witness :
  _processKnownEnvVars local_runtime
    (aws_descriptor (Js.Str "eu-west-1") (Js.Str "api") (Js.Str "") Js.Undefined)
  = Js.Throw (BadArgsError
      "bad AWS SecretsManager source configuration (missing value for property 'secretAccessKey')").
Proof.
  refine (proj1
    (C7_first_offending_field local_runtime
       [("region", Js.Str "eu-west-1"); ("secretId", Js.Str "api");
        ("secretAccessKey", Js.Str ""); ("accessKeyId", Js.Undefined)]
       ["region"; "secretId"] "secretAccessKey" ["accessKeyId"] _ _ _ _)).
  - intros f Hf. exact Hf.
  - reflexivity.
  - repeat constructor; eexists; (split; [reflexivity|discriminate]).
  - simpl. intros s [= <-]. reflexivity.
Defined.

(** C8.  For an array source: if some element is not a string,
    [_processKnownEnvVars] throws the BadArgsError "... expected all elements
    to be string"; if all are strings it returns a promise resolved with the
    names, each with one leading "process.env." removed, and as a set (which
    is all [includes] observes) that is the image of the configured names
    under the stripping, duplicates collapsed. *)
Theorem C8_explicit_list rt elems :
  (Exists (fun v => forall s, v <> Js.Str s) elems ->
   _processKnownEnvVars rt (Js.Array elems)
   = Js.Throw (BadArgsError not_all_strings_message)) /\
  (forall names,
     elems = List.map Js.Str names ->
     _processKnownEnvVars rt (Js.Array elems)
     = Js.Return (Promise_resolve (List.map strip_process_env names)) /\
     (list_to_set (List.map strip_process_env names) : gset string)
     = set_map strip_process_env (list_to_set names : gset string) /\
     (forall x, Js.includes (List.map strip_process_env names) x = true <->
                x ∈ (set_map strip_process_env (list_to_set names : gset string)
                     : gset string))).
Proof.
  split.
  - intros Hbad. unfold _processKnownEnvVars. cbn [Js.truthy negb].
    by rewrite non_string_throws.
  - intros names ->.
    unfold _processKnownEnvVars. cbn [Js.truthy negb].
    rewrite strings_resolve. cbn [Js.bind].
    split; [done|]. split; [apply stripped_set|].
    intros x. rewrite <- stripped_set, elem_of_list_to_set, list_elem_of_In.
    apply includes_In.
Qed.

Lemma C8_explicit_list_witness :
  _processKnownEnvVars local_runtime (Js.Array [Js.Str "A"; Js.Number 7])
  = Js.Throw (BadArgsError not_all_strings_message) /\
  _processKnownEnvVars local_runtime
    (Js.Array (List.map Js.Str ["process.env.A"; "A"; "B"]))
  = Js.Return (Promise_resolve ["A"; "A"; "B"]) /\
  (list_to_set ["A"; "A"; "B"] : gset string)
  = set_map strip_process_env (list_to_set ["process.env.A"; "A"; "B"] : gset string).
Proof.
  split.
  - refine (proj1 (C8_explicit_list local_runtime [Js.Str "A"; Js.Number 7]) _).
    apply Exists_cons_tl, Exists_cons_hd. discriminate.
  - destruct (proj2 (C8_explicit_list local_runtime
                       (List.map Js.Str ["process.env.A"; "A"; "B"]))
                ["process.env.A"; "A"; "B"] eq_refl) as (Hr & Hset & _).
    split; [exact Hr|exact Hset].
Defined.

(** ** A build whose known names are already resolved *)

Section ResolvedBuild.

Implicit Types (this : Plugin) (known : list string) (ev : ScanEvent).

Lemma apply_resolved throwUnhandled rt this known events errors :
  knownEnvVars this = Promise_resolve known ->
  knownEnvVarsTimeout this = 5000%Z ->
  apply throwUnhandled rt this events errors
  = Compiled (afterCompile (fst (scan this known events)) errors)
             (snd (scan this known events)).
Proof.
  intros Hk Ht. unfold apply, beforeCompile, settlement.
  rewrite Hk, Ht. cbn. by destruct (scan this known events).
Qed.

(** A known name never enters the record. *)
Lemma known_never_recorded this known events k :
  In k known ->
  ~ In k (List.map fst (foundUnrecognisedEnvVars this)) ->
  ~ In k (List.map fst (foundUnrecognisedEnvVars (fst (scan this known events)))).
Proof.
  intros Hk. revert this. induction events as [|ev events IH]; intros this Habs; [done|].
  rewrite scan_cons. cbn [fst]. apply IH.
  rewrite MemberExpression_found.
  destruct (fst (fst (_isRecognisedEnvVar this known _ _))) eqn:E; [done|].
  apply unrecognised_iff in E as (Hnot & _).
  rewrite List.map_app, in_app_iff. intros [?|[<-|[]]]; [done|].
  apply includes_In in Hk. simpl in Hk. congruence.
Qed.

(** After an access to an unknown name inside the scanned area the name is
    in the record. *)
Lemma in_scope_access_recorded this known ev :
  Js.includes known (event_name ev) = false ->
  in_scope this ev = true ->
  Js.Map_has (foundUnrecognisedEnvVars (fst (MemberExpression this known ev)))
    (event_name ev) = true.
Proof.
  intros Hunknown Hscope.
  rewrite MemberExpression_found.
  destruct (Js.Map_has (foundUnrecognisedEnvVars this) (event_name ev)) eqn:Hhas.
  - destruct (fst (fst (_isRecognisedEnvVar this known _ _))) eqn:E; [done|].
    apply unrecognised_iff in E as (_ & E & _). congruence.
  - rewrite (proj2 (unrecognised_in_scope this known ev)) by done.
    apply Map_has_In. rewrite List.map_app. apply in_or_app. right. by left.
Qed.

(** Checks that do not depend on the heap answer as they do in the empty
    heap and leave the heap as it is. *)
Lemma some_check_pure checks input h :
  Forall pure_check checks ->
  some_check checks input h = (fst (some_check checks input ∅), h).
Proof.
  induction 1 as [|check rest Hc _ IH]; [done|].
  cbn [some_check]. rewrite (Hc input h).
  pose proof (Hc input ∅) as H0.
  destruct (check input ∅) as [b h0]. cbn [fst] in *. injection H0 as ->.
  by destruct b.
Qed.

(** Strings and regular expressions without the [g] and [y] flags compile
    to such checks. *)
Lemma compiled_pure rt name v stringCheck checks :
  stateless_option v = true ->
  _processStringOrRegexArrayInput rt name v stringCheck = Js.Return checks ->
  Forall pure_check checks.
Proof.
  unfold _processStringOrRegexArrayInput.
  destruct (Js.truthy v); cbn [negb]; [|by intros _ [= <-]].
  destruct v as [| | | | | | elems |]; try discriminate.
  cbn [stateless_option]. revert checks.
  induction elems as [|e elems IH]; intros checks Hst; cbn [Js.map_throwing].
  - by intros [= <-].
  - cbn [forallb] in Hst. apply andb_prop in Hst as [He Hst].
    destruct e as [| | | |s|id lit gs exec| |]; cbn [Js.bind]; try discriminate.
    + destruct (Js.map_throwing _ elems) as [rest|]; cbn [Js.bind]; [|discriminate].
      intros [= <-]. constructor; [by intros input h|by apply IH].
    + destruct (Js.map_throwing _ elems) as [rest|]; cbn [Js.bind]; [|discriminate].
      intros [= <-]. constructor; [|by apply IH].
      cbn [stateless_entry] in He. apply negb_true_iff in He. subst gs.
      by intros input h.
Qed.

Lemma in_scope_pure this ev :
  Forall pure_check (includePaths this) ->
  Forall pure_check (excludePaths this) ->
  Forall pure_check (ignoreEnvVars this) ->
  in_scope this ev
  = fst (some_check (includePaths this) (userRequest (event_module ev)) ∅)
    && negb (fst (some_check (excludePaths this) (userRequest (event_module ev)) ∅))
    && negb (fst (some_check (ignoreEnvVars this) (event_name ev) ∅)).
Proof.
  intros Hinc Hexc Hign. unfold in_scope. cbv zeta.
  rewrite (some_check_pure (includePaths this) _ (lastIndexes this)) by done.
  cbn [fst snd].
  rewrite (some_check_pure (excludePaths this) _ (lastIndexes this)) by done.
  cbn [fst snd].
  by rewrite (some_check_pure (ignoreEnvVars this) _ (lastIndexes this)) by done.
Qed.

(** With such checks an access is in scope after a scan exactly when it was
    before. *)
Lemma in_scope_stateless this known events ev :
  Forall pure_check (includePaths this) ->
  Forall pure_check (excludePaths this) ->
  Forall pure_check (ignoreEnvVars this) ->
  in_scope (fst (scan this known events)) ev = in_scope this ev.
Proof.
  intros Hinc Hexc Hign.
  destruct (scan_static this known events) as (Ei & Ee & Eg).
  rewrite (in_scope_pure this), (in_scope_pure (fst (scan this known events)));
    rewrite ?Ei, ?Ee, ?Eg; done.
Qed.

(** The checks of a plugin constructed from stateless options. *)
Lemma constructor_pure rt options this :
  snd (constructor rt options) = Js.Return this ->
  stateless_option (Js.get options "ignoreEnvVars") = true ->
  stateless_option (Js.get options "includePaths") = true ->
  stateless_option (Js.get options "excludePaths") = true ->
  Forall pure_check (includePaths this) /\
  Forall pure_check (excludePaths this) /\
  Forall pure_check (ignoreEnvVars this).
Proof.
  intros Hc Hign Hinc Hexc.
  apply constructor_inv in Hc as (_ & _ & _ & Cign & Cinc & Cexc).
  split; [|split].
  - exact (compiled_pure _ _ _ _ _ Hinc Cinc).
  - exact (compiled_pure _ _ _ _ _ Hexc Cexc).
  - exact (compiled_pure _ _ _ _ _ Hign Cign).
Qed.

Lemma recorded_one_diagnostic this envVar :
  List.NoDup (List.map fst (foundUnrecognisedEnvVars this)) ->
  Js.Map_has (foundUnrecognisedEnvVars this) envVar = true ->
  exists module,
    diagnostics_about envVar (diagnostics this) = [UnrecognisedEnvVarError envVar module].
Proof.
  intros Hnd Hin.
  apply Map_has_In, in_map_iff in Hin as ([k module] & Heq & Hin).
  simpl in Heq. subst k. exists module.
  by rewrite diagnostics_about_found, (filter_key_unique _ envVar module Hnd Hin).
Qed.

(** The two scan laws for a fresh record: known names yield no diagnostic,
    an unknown name read where the checks place it inside the scanned area
    yields exactly one. *)
Lemma scan_laws this known events :
  foundUnrecognisedEnvVars this = [] ->
  (forall k, In k known ->
     diagnostics_about k (diagnostics (fst (scan this known events))) = []) /\
  (forall pre ev post, events = pre ++ ev :: post ->
     ~ In (event_name ev) known -> in_scope (fst (scan this known pre)) ev = true ->
     exists module,
       diagnostics_about (event_name ev) (diagnostics (fst (scan this known events)))
       = [UnrecognisedEnvVarError (event_name ev) module]).
Proof.
  intros Hfresh.
  assert (List.NoDup (List.map fst (foundUnrecognisedEnvVars this))) as Hnd
    by (rewrite Hfresh; constructor).
  split.
  - intros k Hk. rewrite diagnostics_about_found, filter_key_absent; [done|].
    apply known_never_recorded; [done|]. rewrite Hfresh. by intros [].
  - intros pre ev post -> Hunknown Hscope.
    rewrite scan_app, scan_cons. cbn [fst].
    set (mid := fst (scan this known pre)).
    assert (List.NoDup (List.map fst (foundUnrecognisedEnvVars mid))) as Hmid.
    { destruct (scan_extends this known pre Hnd) as (x & Hx & Hx'). subst mid.
      by rewrite Hx. }
    pose proof (MemberExpression_NoDup mid known ev Hmid) as Hnext.
    apply recorded_one_diagnostic.
    + destruct (scan_extends _ known post Hnext) as (x & Hx & Hx'). by rewrite Hx.
    + apply scan_keeps_name; [done|].
      apply in_scope_access_recorded.
      * destruct (Js.includes known (event_name ev)) eqn:E; [|done].
        by apply includes_In in E.
      * done.
Qed.

End ResolvedBuild.



(** ** The claims about the [beforeCompile] hook *)

Section Hook.

Implicit Types (rt : Runtime) (this : Plugin).

(** The constructor never reads a timeout option. *)
Lemma constructor_timeout_fixed rt options this :
  snd (constructor rt options) = Js.Return this -> knownEnvVarsTimeout this = 5000%Z.
Proof. intros H. by apply constructor_inv in H as (? & _). Qed.

(** A promise that settles before the timer is due disarms it: the timer
    callback never runs. *)
Lemma settled_in_time_disarms rt this ms s :
  settlement rt (knownEnvVars this) = Some (ms, s) ->
  (ms < knownEnvVarsTimeout this)%Z ->
  bailTimeout_armed (hook_state (beforeCompile rt this)) = false /\
  uncaughtException (beforeCompile rt this) = None.
Proof.
  intros Hs Hms. unfold beforeCompile. rewrite Hs.
  apply Z.ltb_lt in Hms. rewrite Hms. by destruct s.
Qed.

(** A promise that has not settled when the timer is due: the timer callback
    throws and nothing is classified. *)
Lemma timer_first_crashes throwUnhandled rt this events errors :
  (settlement rt (knownEnvVars this) = None \/
   exists ms s, settlement rt (knownEnvVars this) = Some (ms, s)
                /\ (knownEnvVarsTimeout this <= ms)%Z) ->
  apply throwUnhandled rt this events errors = Crashed timeout_error.
Proof.
  unfold apply, beforeCompile. intros [->|(ms & s & -> & Hms)]; [done|].
  apply Z.ltb_ge in Hms. by rewrite Hms.
Qed.

Lemma rejected_in_time rt this call ms response err :
  knownEnvVars this = Promise_getSecretValue call ->
  getSecretValue rt call = Some (ms, response) ->
  (ms < knownEnvVarsTimeout this)%Z ->
  getSecretValue_callback rt response = Rejected err ->
  beforeCompile rt this
  = {| hook_state := {| knownEnvVars_let := None;
                        hook_resolved := false;
                        bailTimeout_armed := false |};
       unhandledRejection := Some err;
       uncaughtException := None |}.
Proof.
  intros Hk Hcall Hms Hrej. unfold beforeCompile, settlement.
  rewrite Hk, Hcall, Hrej. apply Z.ltb_lt in Hms. by rewrite Hms.
Qed.

(** Where unhandled rejections are only reported, the same failure leaves the
    hook pending: nothing is compiled. *)
Lemma rejected_in_time_stalls rt this call ms response err events errors :
  knownEnvVars this = Promise_getSecretValue call ->
  getSecretValue rt call = Some (ms, response) ->
  (ms < knownEnvVarsTimeout this)%Z ->
  getSecretValue_callback rt response = Rejected err ->
  apply false rt this events errors = Stalled (Some err).
Proof.
  intros Hk Hcall Hms Hrej. unfold apply.
  by rewrite (rejected_in_time rt this call ms response err).
Qed.

End Hook.

(** C4: the code departs from the claim.  The options ask for a bail timeout of
    one second and the secret store answers after two; the constructed plugin
    still holds 5000, the hook waits for the answer and the build compiles
    instead of ending with the timeout error. *)
Lemma C4_configured_timeout_ignored :
  constructor (sample_runtime 2000 (ResponseData (Js.Str "{API_URL:1}")))
    options_with_timeout
  = ([sample_call], Js.Return sample_aws_plugin) /\
  knownEnvVarsTimeout sample_aws_plugin = 5000%Z /\
  apply true (sample_runtime 2000 (ResponseData (Js.Str "{API_URL:1}")))
    sample_aws_plugin [read "API_URL" src_a; read "OTHER" src_a] []
  = Compiled [UnrecognisedEnvVarError "OTHER" src_a]
             [("API_URL", "in knownEnvVars"); ("OTHER", "unrecognised")].
Proof. repeat split; reflexivity. Qed.

(** C5: the code departs from the claim.  The secret store answers a request
    before the bail timer is due and the callback rejects the promise, with
    the service's error as it is or with the parse error of the payload under
    the prefix "ValidateEnvVars failed parsing SecretString: ".  The executor
    of the hook's promise takes [resolve] only: [.catch] rethrows into a
    promise nobody handles and [.finally] clears the timer, so the hook is
    never resolved and never ends with the error, no timer is left to end it,
    and nothing is classified.  Where unhandled rejections are only reported
    the build stalls with a warning; it ends with the error only where the
    process itself raises unhandled rejections. *)
Theorem C5_rejection_never_reaches_hook
  throwUnhandled rt this call ms response err events errors :
  knownEnvVars this = Promise_getSecretValue call ->
  getSecretValue rt call = Some (ms, response) ->
  (ms < knownEnvVarsTimeout this)%Z ->
  getSecretValue_callback rt response = Rejected err ->
  hook_resolved (hook_state (beforeCompile rt this)) = false /\
  bailTimeout_armed (hook_state (beforeCompile rt this)) = false /\
  uncaughtException (beforeCompile rt this) = None /\
  unhandledRejection (beforeCompile rt this) = Some err /\
  apply throwUnhandled rt this events errors
  = (if throwUnhandled then Crashed err else Stalled (Some err)) /\
  classified (apply throwUnhandled rt this events errors) = [] /\
  (forall e, response = ResponseErr e -> err = e) /\
  (forall text cause,
     response = ResponseData text ->
     JSON_parse rt text = Js.Throw cause \/
     (exists parsed, JSON_parse rt text = Js.Return parsed /\
                     Js.Object_keys parsed = Js.Throw cause) ->
     err = {| Js.name := Js.name cause;
              Js.message := "ValidateEnvVars failed parsing SecretString: "
                            +:+ Js.message cause |}).
Proof.
  intros Hk Hcall Hms Hrej.
  pose proof (rejected_in_time rt this call ms response err Hk Hcall Hms Hrej) as Hhook.
  assert (apply throwUnhandled rt this events errors
          = if throwUnhandled then Crashed err else Stalled (Some err)) as Happly
    by (unfold apply; by rewrite Hhook).
  rewrite Happly, Hhook. repeat split; try done.
  - by destruct throwUnhandled.
  - intros e ->. simpl in Hrej. congruence.
  - intros text cause -> Hparse. simpl in Hrej.
    destruct Hparse as [Hparse|(parsed & Hparse & Hkeys)];
      rewrite Hparse in Hrej; cbn [Js.bind] in Hrej; [|rewrite Hkeys in Hrej];
      injection Hrej as <-; reflexivity.
Qed.

Lemma C5_rejection_witness :
  hook_resolved
    (hook_state (beforeCompile (sample_runtime 120 (ResponseErr access_denied))
                   sample_aws_plugin)) = false /\
  apply false (sample_runtime 120 (ResponseErr access_denied)) sample_aws_plugin
    [read "OTHER" src_a] []
  = Stalled (Some access_denied) /\
  apply false (sample_runtime 120 (ResponseData (Js.Str "not json"))) sample_aws_plugin
    [read "OTHER" src_a] []
  = Stalled (Some {| Js.name := "SyntaxError";
                     Js.message := "ValidateEnvVars failed parsing SecretString: Unexpected token" |}).
Proof.
  pose proof (C5_rejection_never_reaches_hook false
                (sample_runtime 120 (ResponseErr access_denied)) sample_aws_plugin
                _ 120 (ResponseErr access_denied) access_denied
                [read "OTHER" src_a] [] eq_refl eq_refl eq_refl eq_refl)
    as (Hres & _ & _ & _ & Hstall & _).
  pose proof (C5_rejection_never_reaches_hook false
                (sample_runtime 120 (ResponseData (Js.Str "not json")))
                sample_aws_plugin
                _ 120 (ResponseData (Js.Str "not json")) _
                [read "OTHER" src_a] [] eq_refl eq_refl eq_refl eq_refl)
    as (_ & _ & _ & _ & Hstall' & _).
  exact (conj Hres (conj Hstall Hstall')).
Defined.

(** ** The claim about ignore entries *)

Lemma map_throwing_lookup {A B} (f : A -> Js.completion B) (arr : list A) (ys : list B)
  (i : nat) (x : A) :
  Js.map_throwing f arr = Js.Return ys -> arr !! i = Some x ->
  exists y, ys !! i = Some y /\ f x = Js.Return y.
Proof.
  revert ys i. induction arr as [|a arr IH]; intros ys i Hmap Hx; [done|].
  simpl in Hmap.
  destruct (f a) as [b|] eqn:Hfa; [|done]. cbn [Js.bind] in Hmap.
  destruct (Js.map_throwing f arr) as [bs|] eqn:Hrest; [|done].
  cbn [Js.bind] in Hmap. injection Hmap as <-.
  destruct i as [|i]; simpl in *.
  - injection Hx as <-. eauto.
  - by apply IH.
Qed.

Lemma qualified_has_dot (name : string) :
  Js.str_includes ("process.env." +:+ name) "." = true.
Proof. reflexivity. Qed.

(** C10.  The predicate compiled for a string entry of ignoreEnvVars compares
    the entry, unchanged, with the candidate stripped of one leading
    "process.env.", and leaves the heap alone.  So for an entry that itself
    begins with "process.env." the predicate holds for no candidate without
    a dot, and the candidates are the identifier names the visitor takes
    from [expression.property.name], which hold no dot; the one string it
    would hold for is the entry with the qualifier prepended once more. *)
Theorem C10_string_entry_strips_candidate_only rt entries checks i entry :
  _processStringOrRegexArrayInput rt "ignoreEnvVars" (Js.Array entries)
    ignoreEnvVars_stringCheck = Js.Return checks ->
  entries !! i = Some (Js.Str entry) ->
  exists check,
    checks !! i = Some check /\
    (forall candidate h,
       check candidate h = (String.eqb entry (strip_process_env candidate), h)) /\
    (Js.startsWith entry "process.env." = true ->
     (forall candidate h,
        Js.str_includes candidate "." = false -> fst (check candidate h) = false) /\
     (forall candidate h,
        fst (check candidate h) = true <-> candidate = "process.env." +:+ entry)).
Proof.
  intros Hcompile Hentry.
  unfold _processStringOrRegexArrayInput in Hcompile. cbn [Js.truthy negb] in Hcompile.
  destruct (map_throwing_lookup _ _ _ _ _ Hcompile Hentry) as (check & Hcheck & Hdef).
  injection Hdef as <-. eexists. split; [exact Hcheck|].
  split; [done|]. intros Hq.
  assert (forall candidate,
            ignoreEnvVars_stringCheck entry candidate = true
            <-> candidate = "process.env." +:+ entry) as Hiff.
  { intros candidate. unfold ignoreEnvVars_stringCheck.
    rewrite String.eqb_eq, <- (strip_hits_qualified entry candidate Hq).
    split; congruence. }
  split; [|intros candidate h; exact (Hiff candidate)].
  intros candidate h Hdot. cbn [fst].
  destruct (ignoreEnvVars_stringCheck entry candidate) eqn:E; [|done].
  apply Hiff in E. subst candidate. by rewrite qualified_has_dot in Hdot.
Qed.

Lemma C10_string_entry_witness :
  exists check,
    [fun input (h : Js.Heap) => (ignoreEnvVars_stringCheck "process.env.FOO" input, h)]
      !! 0 = Some check /\
    fst (check "FOO" ∅) = false /\
    fst (check "process" ∅) = false.
Proof.
  destruct (C10_string_entry_strips_candidate_only local_runtime
              [Js.Str "process.env.FOO"]
              [fun input h => (ignoreEnvVars_stringCheck "process.env.FOO" input, h)]
              0 "process.env.FOO" eq_refl eq_refl)
    as (check & Hcheck & Hdef & Hq).
  exists check. split; [exact Hcheck|].
  destruct (Hq eq_refl) as [Hnone _].
  split; apply Hnone; reflexivity.
Defined.

(** ** Beyond the claims: what a scan records *)

Section ScanCharacterisation.

Implicit Types (this : Plugin) (known : list string) (ev : ScanEvent).

Lemma reportable_stateless this known events ev :
  Forall pure_check (includePaths this) ->
  Forall pure_check (excludePaths this) ->
  Forall pure_check (ignoreEnvVars this) ->
  reportable (fst (scan this known events)) known ev = reportable this known ev.
Proof. intros. unfold reportable. by rewrite in_scope_stateless. Qed.

Lemma unrecognised_reportable this known ev :
  fst (fst (_isRecognisedEnvVar this known (event_name ev) (userRequest (event_module ev))))
  = false ->
  reportable this known ev = true.
Proof.
  intros H. apply unrecognised_in_scope in H as (Hk & _ & Hs).
  unfold reportable. by rewrite Hk, Hs.
Qed.

(** Every entry a scan adds comes from an access of the trace that was
    reportable in the state the scan had reached. *)
Lemma scan_entries_origin this known events n m :
  In (n, m) (foundUnrecognisedEnvVars (fst (scan this known events))) ->
  In (n, m) (foundUnrecognisedEnvVars this) \/
  exists pre ev post,
    events = pre ++ ev :: post /\ event_name ev = n /\ event_module ev = m /\
    reportable (fst (scan this known pre)) known ev = true.
Proof.
  revert this. induction events as [|ev events IH]; intros this Hin; [by left|].
  rewrite scan_cons in Hin. cbn [fst] in Hin.
  destruct (IH _ Hin) as [Hstep|(pre & ev' & post & -> & Hn & Hm & Hrep)].
  - rewrite MemberExpression_found in Hstep.
    destruct (fst (fst (_isRecognisedEnvVar this known _ _))) eqn:E; [by left|].
    apply in_app_or in Hstep as [?|[[= <- <-]|[]]]; [by left|].
    right. exists [], ev, events. repeat split. by apply unrecognised_reportable.
  - right. exists (ev :: pre), ev', post. repeat split; [done|done|].
    by rewrite scan_cons.
Qed.

(** An access that is reportable in the state the scan has reached leaves
    its name in the record. *)
Lemma reportable_access_recorded this known pre ev post :
  List.NoDup (List.map fst (foundUnrecognisedEnvVars this)) ->
  reportable (fst (scan this known pre)) known ev = true ->
  Js.Map_has (foundUnrecognisedEnvVars (fst (scan this known (pre ++ ev :: post))))
    (event_name ev) = true.
Proof.
  intros Hnd Hrep. unfold reportable in Hrep.
  apply andb_prop in Hrep as [Hunknown Hscope]. apply negb_true_iff in Hunknown.
  rewrite scan_app, scan_cons. cbn [fst].
  set (mid := fst (scan this known pre)) in *.
  assert (List.NoDup (List.map fst (foundUnrecognisedEnvVars mid))) as Hmid.
  { destruct (scan_extends this known pre Hnd) as (x & Hx & Hx'). subst mid.
    by rewrite Hx. }
  apply scan_keeps_name; [by apply MemberExpression_NoDup|].
  by apply in_scope_access_recorded.
Qed.

Lemma fresh_NoDup this :
  foundUnrecognisedEnvVars this = [] ->
  List.NoDup (List.map fst (foundUnrecognisedEnvVars this)).
Proof. intros ->. constructor. Qed.

Lemma scan_NoDup this known events :
  List.NoDup (List.map fst (foundUnrecognisedEnvVars this)) ->
  List.NoDup (List.map fst (foundUnrecognisedEnvVars (fst (scan this known events)))).
Proof.
  intros Hnd. destruct (scan_extends this known events Hnd) as (x & Hx & Hx').
  by rewrite Hx.
Qed.

Lemma reported_names_spec this known events n :
  foundUnrecognisedEnvVars this = [] ->
  In n (List.map fst (foundUnrecognisedEnvVars (fst (scan this known events)))) <->
  exists pre ev post,
    events = pre ++ ev :: post /\ event_name ev = n /\
    reportable (fst (scan this known pre)) known ev = true.
Proof.
  intros Hfresh. split.
  - intros Hin. apply in_map_iff in Hin as ([n' m] & Hn & Hin). simpl in Hn. subst n'.
    apply scan_entries_origin in Hin as [Hin|(pre & ev & post & ? & ? & _ & ?)];
      [|by exists pre, ev, post].
    by rewrite Hfresh in Hin.
  - intros (pre & ev & post & -> & <- & Hrep).
    apply Map_has_In. apply reportable_access_recorded; [|done].
    by apply fresh_NoDup.
Qed.

(** With checks that do not depend on the heap the state the scan has
    reached does not matter. *)
Lemma reported_names_stateless this known events n :
  foundUnrecognisedEnvVars this = [] ->
  Forall pure_check (includePaths this) ->
  Forall pure_check (excludePaths this) ->
  Forall pure_check (ignoreEnvVars this) ->
  In n (List.map fst (foundUnrecognisedEnvVars (fst (scan this known events)))) <->
  exists ev, In ev events /\ event_name ev = n /\ reportable this known ev = true.
Proof.
  intros Hfresh Hi He Hg. rewrite reported_names_spec by done. split.
  - intros (pre & ev & post & -> & Hn & Hrep). exists ev.
    rewrite reportable_stateless in Hrep by done.
    repeat split; try done. apply in_or_app. right. by left.
  - intros (ev & Hev & Hn & Hrep).
    apply in_split in Hev as (pre & post & ->). exists pre, ev, post.
    by rewrite reportable_stateless.
Qed.

End ScanCharacterisation.

(** X1.  Starting from an empty record, every entry of the record after a scan
    carries the name and the module of some access of the trace whose name is
    not known and which the checks, called in the state the scan had reached
    at that access, placed inside the scanned area: module matched by an
    include check, by no exclude check, name matched by no ignore check. *)
Theorem recorded_entries_come_from_reportable_accesses this known events n m :
  foundUnrecognisedEnvVars this = [] ->
  In (n, m) (foundUnrecognisedEnvVars (fst (scan this known events))) ->
  exists pre ev post,
    events = pre ++ ev :: post /\ event_name ev = n /\ event_module ev = m /\
    reportable (fst (scan this known pre)) known ev = true.
Proof.
  intros Hfresh Hin.
  apply scan_entries_origin in Hin as [Hin|?]; [|done].
  by rewrite Hfresh in Hin.
Qed.

(** X2.  Starting from an empty record, a name is in the record after a scan
    exactly when the trace holds an access to it that is reportable in the
    state the scan has reached at that access: name not known, and the
    include, exclude and ignore checks, called in that state, place the
    access inside the scanned area.  When no check depends on the heap (no
    regular expression with the [g] or the [y] flag), that is exactly when
    the trace holds an access to it that is reportable at the start. *)
Theorem reported_names_characterised this known events n :
  foundUnrecognisedEnvVars this = [] ->
  (In n (List.map fst (foundUnrecognisedEnvVars (fst (scan this known events)))) <->
   exists pre ev post,
     events = pre ++ ev :: post /\ event_name ev = n /\
     reportable (fst (scan this known pre)) known ev = true) /\
  (Forall pure_check (includePaths this) ->
   Forall pure_check (excludePaths this) ->
   Forall pure_check (ignoreEnvVars this) ->
   In n (List.map fst (foundUnrecognisedEnvVars (fst (scan this known events)))) <->
   exists ev, In ev events /\ event_name ev = n /\ reportable this known ev = true).
Proof.
  intros Hfresh. split; [by apply reported_names_spec|].
  intros. by apply reported_names_stateless.
Qed.

(** X3.  When no entry of ignoreEnvVars, includePaths and excludePaths is a
    regular expression with the [g] or the [y] flag, the order in which
    accesses arrive does not change which names are reported: for two traces
    that are permutations of each other the recorded names are permutations
    of each other (the modules they are attributed to may differ). *)
Theorem reported_names_order_insensitive rt options this known events events' :
  snd (constructor rt options) = Js.Return this ->
  stateless_option (Js.get options "ignoreEnvVars") = true ->
  stateless_option (Js.get options "includePaths") = true ->
  stateless_option (Js.get options "excludePaths") = true ->
  Permutation events events' ->
  Permutation
    (List.map fst (foundUnrecognisedEnvVars (fst (scan this known events))))
    (List.map fst (foundUnrecognisedEnvVars (fst (scan this known events')))).
Proof.
  intros Hc Hign Hinc Hexc Hperm.
  destruct (constructor_pure rt options this Hc Hign Hinc Hexc) as (Pi & Pe & Pg).
  apply constructor_inv in Hc as (_ & Hfresh & _).
  apply Stdlib.Sorting.Permutation.NoDup_Permutation;
    try (apply scan_NoDup; by apply fresh_NoDup).
  intros n. rewrite !reported_names_stateless by done.
  split; intros (ev & Hev & Hn & Hrep); exists ev; repeat split; try done.
  - by apply (Permutation_in _ Hperm).
  - by apply (Permutation_in _ (Permutation_sym Hperm)).
Qed.

Lemma recorded_entries_witness :
  exists pre ev post,
    [read "HOME" src_a; read "SECRET" src_b; read "SECRET" src_a] = pre ++ ev :: post /\
    event_name ev = "SECRET" /\ event_module ev = src_b /\
    reportable (fst (scan (default_plugin_including "/src" ["HOME"]) ["HOME"] pre))
      ["HOME"] ev = true.
Proof.
  refine (recorded_entries_come_from_reportable_accesses
            (default_plugin_including "/src" ["HOME"]) ["HOME"]
            [read "HOME" src_a; read "SECRET" src_b; read "SECRET" src_a]
            "SECRET" src_b eq_refl _).
  simpl. auto.
Defined.

Lemma reported_names_witness :
  In "SECRET"
    (List.map fst
       (foundUnrecognisedEnvVars
          (fst (scan (default_plugin_including "/src" ["HOME"]) ["HOME"]
                  [read "HOME" src_a; read "SECRET" src_b])))) <->
  exists pre ev post,
    [read "HOME" src_a; read "SECRET" src_b] = pre ++ ev :: post /\
    event_name ev = "SECRET" /\
    reportable (fst (scan (default_plugin_including "/src" ["HOME"]) ["HOME"] pre))
      ["HOME"] ev = true.
Proof.
  exact (proj1 (reported_names_characterised
                  (default_plugin_including "/src" ["HOME"]) ["HOME"]
                  [read "HOME" src_a; read "SECRET" src_b] "SECRET" eq_refl)).
Defined.

Lemma order_insensitive_witness :
  Permutation
    (List.map fst
       (foundUnrecognisedEnvVars
          (fst (scan (default_plugin_including "/src" []) []
                  [read "A" src_a; read "B" src_b]))))
    (List.map fst
       (foundUnrecognisedEnvVars
          (fst (scan (default_plugin_including "/src" []) []
                  [read "B" src_b; read "A" src_a])))).
Proof.
  exact (reported_names_order_insensitive local_runtime
           (Js.Object [("knownEnvVars", Js.Array []);
                       ("includePaths", Js.Array [Js.Str "/src"])])
           (default_plugin_including "/src" []) []
           [read "A" src_a; read "B" src_b] [read "B" src_b; read "A" src_a]
           eq_refl eq_refl eq_refl eq_refl (perm_swap _ _ _)).
Defined.

(** ** Beyond the claims: the log and the growth of the record *)

Lemma scan_appends this known events :
  exists extra,
    foundUnrecognisedEnvVars (fst (scan this known events))
    = foundUnrecognisedEnvVars this ++ extra.
Proof.
  revert this. induction events as [|ev events IH]; intros this.
  - exists []. simpl. by rewrite app_nil_r.
  - rewrite scan_cons. cbn [fst].
    destruct (IH (fst (MemberExpression this known ev))) as (extra & ->).
    rewrite MemberExpression_found.
    destruct (fst (fst (_isRecognisedEnvVar this known _ _))); [by eexists|].
    rewrite <- app_assoc. by eexists.
Qed.

(** X4.  Every access is classified exactly once and in order: the debug log
    of a scan has one call per access of the trace, naming that access. *)
Theorem one_debug_call_per_access this known events :
  List.map fst (snd (scan this known events)) = List.map event_name events.
Proof.
  revert this. induction events as [|ev events IH]; intros this; [done|].
  rewrite scan_cons. cbn [snd List.map].
  by rewrite IH, MemberExpression_debug, debug_names_envVar.
Qed.

(** X5.  Later accesses never remove, reorder or overwrite entries: the
    diagnostics after a longer trace start with the diagnostics after its
    prefix, so diagnostics come out in the order of first unrecognised
    access. *)
Theorem diagnostics_only_grow this known pre post :
  exists later,
    diagnostics (fst (scan this known (pre ++ post)))
    = diagnostics (fst (scan this known pre)) ++ later.
Proof.
  rewrite scan_app. cbn [fst].
  destruct (scan_appends (fst (scan this known pre)) known post) as (extra & Hx).
  unfold diagnostics, Js.Map_entries. rewrite Hx, List.map_app. by eexists.
Qed.

Lemma NoDup_map_injective {A B} (f : A -> B) (l : list A) :
  (forall a b, f a = f b -> a = b) -> List.NoDup l -> List.NoDup (List.map f l).
Proof.
  intros Hinj. induction 1 as [|a l Ha _ IH]; simpl; constructor; [|done].
  intros Hin. apply in_map_iff in Hin as (b & Hb & Hin).
  apply Hinj in Hb. by subst b.
Qed.

Lemma diagnostics_messages this :
  List.map error_message (diagnostics this)
  = List.map (fun n => "Unrecognised environment variable: " +:+ n)
      (List.map fst (foundUnrecognisedEnvVars this)).
Proof.
  unfold diagnostics, Js.Map_entries. rewrite !List.map_map. done.
Qed.

(** X6.  The errors pushed at the end of a build of a freshly constructed
    plugin carry pairwise distinct messages, each "Unrecognised environment
    variable: " followed by a recorded name, and the host's earlier errors
    stay in front of them. *)
Theorem diagnostics_distinct rt options this known events compilation_errors :
  snd (constructor rt options) = Js.Return this ->
  List.NoDup
    (List.map error_message (diagnostics (fst (scan this known events)))) /\
  afterCompile (fst (scan this known events)) compilation_errors
  = compilation_errors ++ diagnostics (fst (scan this known events)) /\
  Forall (fun e => exists n m,
            e = UnrecognisedEnvVarError n m /\
            In (n, m) (foundUnrecognisedEnvVars (fst (scan this known events))))
         (diagnostics (fst (scan this known events))).
Proof.
  intros Hc. apply constructor_inv in Hc as (_ & Hfresh & _).
  split; [|split; [done|]].
  - rewrite diagnostics_messages.
    apply NoDup_map_injective.
    + intros a b H. cbv [String.append] in H. by injection H.
    + apply scan_NoDup. by apply fresh_NoDup.
  - unfold diagnostics, Js.Map_entries. apply Forall_forall. intros e He.
    apply list_elem_of_In, in_map_iff in He as ([n m] & <- & Hin). by exists n, m.
Qed.

Lemma diagnostics_distinct_witness :
  List.NoDup
    (List.map error_message
       (diagnostics
          (fst (scan (default_plugin_including "/src" ["HOME"]) ["HOME"]
                  [read "A" src_a; read "B" src_b; read "A" src_b])))).
Proof.
  exact (proj1 (diagnostics_distinct local_runtime
                  (Js.Object [("knownEnvVars", Js.Array [Js.Str "HOME"]);
                              ("includePaths", Js.Array [Js.Str "/src"])])
                  (default_plugin_including "/src" ["HOME"]) ["HOME"]
                  [read "A" src_a; read "B" src_b; read "A" src_b] [] eq_refl)).
Defined.

(** ** Beyond the claims: names that are never reported *)

Lemma map_throwing_In {A B} (f : A -> Js.completion B) (arr : list A) (ys : list B)
  (x : A) :
  Js.map_throwing f arr = Js.Return ys -> In x arr ->
  exists y, In y ys /\ f x = Js.Return y.
Proof.
  intros Hmap Hx.
  apply list_elem_of_In, list_elem_of_lookup_1 in Hx as (i & Hi).
  destruct (map_throwing_lookup f arr ys i x Hmap Hi) as (y & Hy & Hf).
  exists y. split; [|done]. by eapply list_elem_of_In, list_elem_of_lookup_2.
Qed.

Lemma strip_unqualified (n : string) :
  Js.startsWith n "process.env." = false -> strip_process_env n = n.
Proof. unfold strip_process_env. by intros ->. Qed.

Lemma some_check_In checks check input :
  In check checks -> (forall h, fst (check input h) = true) ->
  forall h, fst (some_check checks input h) = true.
Proof.
  induction checks as [|c rest IH]; intros Hin Hc h; [done|].
  cbn [some_check]. destruct (c input h) as [b h'] eqn:E. destruct b; [done|].
  destruct Hin as [->|Hin]; [|by apply IH].
  specialize (Hc h). by rewrite E in Hc.
Qed.

Lemma ignore_entry_matches rt entries checks n :
  _processStringOrRegexArrayInput rt "ignoreEnvVars" (Js.Array entries)
    ignoreEnvVars_stringCheck = Js.Return checks ->
  (In (Js.Str n) entries /\ Js.startsWith n "process.env." = false) \/
  (exists id lit exec, In (Js.RegExp id lit false exec) entries /\ exec 0 n <> None) ->
  forall h, fst (some_check checks n h) = true.
Proof.
  unfold _processStringOrRegexArrayInput. cbn [Js.truthy negb]. intros Hc Hcase.
  destruct Hcase as [[Hin Hq]|(id & lit & exec & Hin & Ht)];
    destruct (map_throwing_In _ _ _ _ Hc Hin) as (check & Hcheck & Hdef);
    injection Hdef as <-; apply (some_check_In _ _ _ Hcheck); intros h; cbn [fst].
  - unfold ignoreEnvVars_stringCheck. rewrite strip_unqualified by done.
    apply String.eqb_refl.
  - unfold Js.RegExp_test. cbn [fst]. by destruct (exec 0 n).
Qed.

Lemma ignored_not_reportable this known ev :
  (forall h, fst (some_check (ignoreEnvVars this) (event_name ev) h) = true) ->
  reportable this known ev = false.
Proof.
  intros H. unfold reportable, in_scope. cbv zeta. rewrite H. cbn [negb].
  by rewrite !andb_false_r.
Qed.

(** X7.  A name listed as a string in ignoreEnvVars (without the
    "process.env." qualifier), or matched by one of its regular expressions
    that has neither the [g] nor the [y] flag, is never recorded and never
    gets a diagnostic, whatever the known names, the paths, the other
    entries and the trace. *)
Theorem ignored_names_never_reported rt options this entries known events n :
  snd (constructor rt options) = Js.Return this ->
  Js.get options "ignoreEnvVars" = Js.Array entries ->
  (In (Js.Str n) entries /\ Js.startsWith n "process.env." = false) \/
  (exists id lit exec, In (Js.RegExp id lit false exec) entries /\ exec 0 n <> None) ->
  ~ In n (List.map fst (foundUnrecognisedEnvVars (fst (scan this known events)))) /\
  diagnostics_about n (afterCompile (fst (scan this known events)) []) = [].
Proof.
  intros Hc Hget Hcase.
  apply constructor_inv in Hc as (_ & Hfresh & _ & Hign & _).
  rewrite Hget in Hign.
  pose proof (ignore_entry_matches rt entries _ n Hign Hcase) as Hmatch.
  assert (~ In n (List.map fst
                    (foundUnrecognisedEnvVars (fst (scan this known events))))) as Habs.
  { intros Hin.
    apply reported_names_spec in Hin as (pre & ev & post & _ & <- & Hrep); [|done].
    rewrite ignored_not_reportable in Hrep; [done|].
    destruct (scan_static this known pre) as (_ & _ & ->). exact Hmatch. }
  split; [done|].
  unfold afterCompile. cbn [app].
  by rewrite diagnostics_about_found, filter_key_absent.
Qed.

Lemma ignored_names_witness :
  diagnostics_about "BAR_BAZ"
    (afterCompile
       (fst (scan (ignoring_plugin false) []
               [read "FOO" src_a; read "BAR_BAZ" src_b; read "BAR_BAZ" src_a])) [])
  = [].
Proof.
  refine (proj2 (ignored_names_never_reported local_runtime
                   (ignoring_options false) (ignoring_plugin false)
                   [Js.Str "FOO"; Js.RegExp 1 "/^BAR_/" false BAR_exec]
                   [] [read "FOO" src_a; read "BAR_BAZ" src_b; read "BAR_BAZ" src_a]
                   "BAR_BAZ" eq_refl eq_refl _)).
  right. exists 1, "/^BAR_/", BAR_exec.
  split; [simpl; auto|discriminate].
Defined.

(** X8.  A name configured in the knownEnvVars array, with or without the
    "process.env." qualifier, is recognised wherever it is read: the build
    compiles and no diagnostic reports it. *)
Theorem qualified_known_names_recognised rt options this names events throwUnhandled n :
  snd (constructor rt options) = Js.Return this ->
  Js.get options "knownEnvVars" = Js.Array (List.map Js.Str names) ->
  In ("process.env." +:+ n) names \/
  (In n names /\ Js.startsWith n "process.env." = false) ->
  exists errors log,
    apply throwUnhandled rt this events [] = Compiled errors log /\
    diagnostics_about n errors = [].
Proof.
  intros Hc Hget Hcase.
  apply constructor_inv in Hc as (Ht & Hfresh & Hk & _).
  rewrite Hget in Hk. unfold _processKnownEnvVars in Hk. cbn [Js.truthy negb] in Hk.
  rewrite strings_resolve in Hk. cbn [Js.bind] in Hk. injection Hk as Hk.
  eexists _, _. split; [by apply apply_resolved|].
  unfold afterCompile. cbn [app].
  apply (proj1 (scan_laws this _ events Hfresh)).
  apply in_map_iff.
  destruct Hcase as [Hin|[Hin Hq]].
  - eexists. split; [|exact Hin]. apply strip_qualified_name.
  - eexists. split; [|exact Hin]. by apply strip_unqualified.
Qed.

Lemma qualified_known_names_witness :
  exists errors log,
    apply true local_runtime (default_plugin_including "/src" ["API_URL"; "HOME"])
      [read "API_URL" src_a; read "HOME" src_b] []
    = Compiled errors log /\
    diagnostics_about "API_URL" errors = [].
Proof.
  refine (qualified_known_names_recognised local_runtime
            (Js.Object [("knownEnvVars",
                         Js.Array (List.map Js.Str ["process.env.API_URL"; "HOME"]));
                        ("includePaths", Js.Array [Js.Str "/src"])])
            (default_plugin_including "/src" ["API_URL"; "HOME"])
            ["process.env.API_URL"; "HOME"]
            [read "API_URL" src_a; read "HOME" src_b] true "API_URL" eq_refl eq_refl _).
  left. simpl. auto.
Defined.

Lemma compiled_iff
  throwUnhandled rt this events compilation_errors errors log :
  apply throwUnhandled rt this events compilation_errors = Compiled errors log <->
  exists ms known,
    settlement rt (knownEnvVars this) = Some (ms, Fulfilled known) /\
    (ms < knownEnvVarsTimeout this)%Z /\
    errors = afterCompile (fst (scan this known events)) compilation_errors /\
    log = snd (scan this known events).
Proof.
  unfold apply, beforeCompile.
  destruct (settlement rt (knownEnvVars this)) as [[ms s]|].
  - destruct (Z.ltb_spec ms (knownEnvVarsTimeout this)) as [Hlt|Hge].
    + destruct s as [known|err]; cbn.
      * destruct (scan this known events) as [final l] eqn:Hscan. cbn [fst snd].
        split.
        -- intros [= <- <-]. exists ms, known. by rewrite Hscan.
        -- intros (ms' & known' & [= <- <-] & _ & -> & ->).
           by rewrite Hscan.
      * split.
        -- by destruct throwUnhandled.
        -- by intros (? & ? & [= ] & _).
    + cbn. split; [done|]. intros (ms' & known' & [= <- _] & Hlt & _). lia.
  - cbn. split; [done|]. by intros (? & ? & [= ] & _).
Qed.

(** X9.  The build reaches the parser only after the promise of known names
    was fulfilled before the bail timer: [apply] ends compiled exactly when
    the promise is fulfilled with some list earlier than the timeout, and then
    the errors are the host's followed by the diagnostics of the scan against
    that list, with one log entry per access. *)
Theorem build_compiles_iff_resolved_in_time
  throwUnhandled rt this events compilation_errors errors log :
  apply throwUnhandled rt this events compilation_errors = Compiled errors log <->
  exists ms known,
    settlement rt (knownEnvVars this) = Some (ms, Fulfilled known) /\
    (ms < knownEnvVarsTimeout this)%Z /\
    errors = afterCompile (fst (scan this known events)) compilation_errors /\
    log = snd (scan this known events).
Proof. apply compiled_iff. Qed.

(** ** Beyond the claims: the bail timer and the secret payload *)

(** X10.  A plugin whose request to the secret store is not answered within
    5000 ms of the hook (or never) ends the process with the error
    "ValidateEnvVars timed out resolving known env vars", whatever the late
    answer is and however unhandled rejections are treated; nothing is
    classified. *)
Theorem unanswered_request_times_out
  rt options this call throwUnhandled events compilation_errors :
  snd (constructor rt options) = Js.Return this ->
  knownEnvVars this = Promise_getSecretValue call ->
  getSecretValue rt call = None \/
  (exists ms response,
     getSecretValue rt call = Some (ms, response) /\ (5000 <= ms)%Z) ->
  apply throwUnhandled rt this events compilation_errors
  = Crashed {| Js.name := "Error";
               Js.message := "ValidateEnvVars timed out resolving known env vars" |} /\
  classified (apply throwUnhandled rt this events compilation_errors) = [].
Proof.
  intros Hc Hk Hstore.
  apply constructor_timeout_fixed in Hc.
  assert (apply throwUnhandled rt this events compilation_errors = Crashed timeout_error)
    as Hcrash.
  { apply timer_first_crashes. unfold settlement. rewrite Hk, Hc.
    destruct Hstore as [->|(ms & response & -> & Hms)]; [by left|].
    right. by eexists _, _. }
  by rewrite Hcrash.
Qed.

Lemma unanswered_request_witness :
  apply false (sample_runtime 6000 (ResponseData (Js.Str "{API_URL:1}")))
    sample_aws_plugin [read "API_URL" src_a] []
  = Crashed {| Js.name := "Error";
               Js.message := "ValidateEnvVars timed out resolving known env vars" |}.
Proof.
  refine (proj1 (unanswered_request_times_out
                   (sample_runtime 6000 (ResponseData (Js.Str "{API_URL:1}")))
                   (Js.Object [("knownEnvVars", sample_descriptor);
                               ("includePaths", Js.Array [Js.Str "/src"])])
                   sample_aws_plugin sample_call false [read "API_URL" src_a] []
                   eq_refl eq_refl _)).
  right. exists 6000%Z, (ResponseData (Js.Str "{API_URL:1}")). split; [reflexivity|lia].
Defined.

(** X11.  What the callback makes of a payload that parses: an object gives
    its keys; a number or a boolean gives the empty list of known names, not
    an error; an array gives one index per element; only [null] is rejected,
    as a TypeError under the "failed parsing SecretString" prefix. *)
Theorem secret_payload_shapes rt text parsed :
  JSON_parse rt text = Js.Return parsed ->
  match parsed with
  | Js.Object props =>
      getSecretValue_callback rt (ResponseData text) = Fulfilled (List.map fst props)
  | Js.Number _ | Js.Bool _ =>
      getSecretValue_callback rt (ResponseData text) = Fulfilled []
  | Js.Array elems =>
      exists keys, getSecretValue_callback rt (ResponseData text) = Fulfilled keys /\
                   length keys = length elems
  | Js.Str s =>
      exists keys, getSecretValue_callback rt (ResponseData text) = Fulfilled keys /\
                   length keys = String.length s
  | Js.Null | Js.Undefined =>
      exists cause,
        getSecretValue_callback rt (ResponseData text)
        = Rejected {| Js.name := "TypeError";
                      Js.message := "ValidateEnvVars failed parsing SecretString: "
                                    +:+ cause |}
  | Js.RegExp _ _ _ _ => getSecretValue_callback rt (ResponseData text) = Fulfilled []
  end.
Proof.
  intros Hparse. unfold getSecretValue_callback. rewrite Hparse. cbn [Js.bind].
  destruct parsed as [| |b|z|s|id l g t|elems|props]; cbn [Js.Object_keys]; try done.
  - by eexists.
  - by eexists.
  - eexists. split; [done|]. by rewrite List.length_map, List.length_seq.
  - eexists. split; [done|]. by rewrite List.length_map, List.length_seq.
Qed.

Lemma secret_payload_witness :
  getSecretValue_callback local_runtime (ResponseData (Js.Str "{API_URL:1}"))
  = Fulfilled ["API_URL"].
Proof.
  exact (secret_payload_shapes local_runtime (Js.Str "{API_URL:1}")
           (Js.Object [("API_URL", Js.Number 1)]) eq_refl).
Defined.

(** X12.  When the secret store answers before the timer with a payload that
    parses to an object, the timer is disarmed, the build compiles against the
    object's keys, the host's errors stay in front, and no key of the secret
    gets a diagnostic. *)
Theorem secret_keys_are_known
  throwUnhandled rt this call ms text props events compilation_errors :
  knownEnvVars this = Promise_getSecretValue call ->
  getSecretValue rt call = Some (ms, ResponseData text) ->
  (ms < knownEnvVarsTimeout this)%Z ->
  JSON_parse rt text = Js.Return (Js.Object props) ->
  foundUnrecognisedEnvVars this = [] ->
  apply throwUnhandled rt this events compilation_errors
  = Compiled
      (compilation_errors ++ diagnostics (fst (scan this (List.map fst props) events)))
      (snd (scan this (List.map fst props) events)) /\
  bailTimeout_armed (hook_state (beforeCompile rt this)) = false /\
  (forall k, In k (List.map fst props) ->
     diagnostics_about k (diagnostics (fst (scan this (List.map fst props) events)))
     = []).
Proof.
  intros Hk Hcall Hms Hparse Hfresh.
  assert (settlement rt (knownEnvVars this)
          = Some (ms, Fulfilled (List.map fst props))) as Hs.
  { unfold settlement, getSecretValue_callback. by rewrite Hk, Hcall, Hparse. }
  split; [|split].
  - unfold apply, beforeCompile. rewrite Hs.
    apply Z.ltb_lt in Hms. rewrite Hms. cbn.
    by destruct (scan this (List.map fst props) events).
  - by apply (settled_in_time_disarms rt this ms _ Hs).
  - apply scan_laws. done.
Qed.

Lemma secret_keys_witness :
  apply true (sample_runtime 120 (ResponseData (Js.Str "{API_URL:1}")))
    sample_aws_plugin [read "API_URL" src_a; read "OTHER" src_b] []
  = Compiled [UnrecognisedEnvVarError "OTHER" src_b]
             [("API_URL", "in knownEnvVars"); ("OTHER", "unrecognised")].
Proof.
  refine (proj1 (secret_keys_are_known true
                   (sample_runtime 120 (ResponseData (Js.Str "{API_URL:1}")))
                   sample_aws_plugin sample_call 120 (Js.Str "{API_URL:1}")
                   [("API_URL", Js.Number 1)]
                   [read "API_URL" src_a; read "OTHER" src_b] []
                   eq_refl eq_refl _ eq_refl eq_refl)).
  reflexivity.
Defined.

(** ** Beyond the claims: the shapes of the known-names option *)

Section SourceShapes.

Variable rt : Runtime.

Implicit Types (props : list (string * Js.value)) (v : Js.value).

(** The required-field check on an object, by its three tests. *)
Lemma isAWSSecretsManagerSource_object props :
  isAWSSecretsManagerSource (Js.Object props) =
  if forallb (fun k => Js.includes (List.map fst props) k) AWS_required then
    match List.find (fun k => notStringOrNoLength (Js.get_prop props k)) AWS_required with
    | Some field =>
        if Js.truthy (Js.Str field)
        then Js.Throw (BadArgsError (missing_value_message field))
        else Js.Return true
    | None => Js.Return true
    end
  else if existsb (fun k => Js.includes AWS_required k) (List.map fst props)
       then Js.Throw (BadArgsError requires_properties_message)
       else Js.Return false.
Proof. reflexivity. Qed.

Lemma processKnownEnvVars_object props :
  _processKnownEnvVars rt (Js.Object props) =
  let* aws := isAWSSecretsManagerSource (Js.Object props) in
  if aws then Js.Return (getAWSSecretsManagerEnvVarNames (Js.Object props))
  else Js.Throw (BadArgsError refer_to_documentation_message).
Proof. reflexivity. Qed.

Lemma all_required_present props :
  forallb (fun k => Js.includes (List.map fst props) k) AWS_required = true <->
  forall k, In k AWS_required -> In k (List.map fst props).
Proof.
  rewrite forallb_forall. split; intros H k Hk; by apply includes_In, H.
Qed.

Lemma find_none_iff {A} (f : A -> bool) (l : list A) :
  List.find f l = None <-> forall x, In x l -> f x = false.
Proof.
  split; [apply List.find_none|].
  induction l as [|x l IH]; intros H; simpl; [done|].
  rewrite (H x) by by left. apply IH. intros y Hy. apply H. by right.
Qed.

Lemma required_names_truthy field :
  In field AWS_required -> Js.truthy (Js.Str field) = true.
Proof.
  unfold AWS_required. simpl. by intros [<-|[<-|[<-|[<-|[]]]]].
Qed.

Lemma descriptor_accepted props p :
  _processKnownEnvVars rt (Js.Object props) = Js.Return p <->
  valid_descriptor props /\ p = getAWSSecretsManagerEnvVarNames (Js.Object props).
Proof.
  rewrite processKnownEnvVars_object, isAWSSecretsManagerSource_object.
  destruct (forallb _ AWS_required) eqn:Hall.
  - destruct (List.find _ AWS_required) as [field|] eqn:Hfind.
    + apply List.find_some in Hfind as [Hin Hbad].
      rewrite (required_names_truthy field Hin). cbn [Js.bind].
      split; [done|]. intros [Hvalid _]. destruct (Hvalid field Hin) as [_ Hs].
      apply notStringOrNoLength_false in Hs. congruence.
    + cbn [Js.bind]. split.
      * intros [= <-]. split; [|done]. intros k Hk. split.
        -- by apply all_required_present.
        -- apply notStringOrNoLength_false.
           by apply (proj1 (find_none_iff _ _) Hfind).
      * by intros [_ ->].
  - split.
    + by destruct (existsb _ (List.map fst props)).
    + intros [Hvalid _].
      assert (forallb (fun k => Js.includes (List.map fst props) k) AWS_required = true)
        as Htrue by (apply all_required_present; intros k Hk; by apply Hvalid).
      congruence.
Qed.

Lemma not_a_source v :
  Js.truthy v = true ->
  (forall elems, v <> Js.Array elems) ->
  (forall s, v <> Js.Str s) ->
  (forall props, v = Js.Object props ->
     forall k, In k AWS_required -> ~ In k (List.map fst props)) ->
  _processKnownEnvVars rt v = Js.Throw (BadArgsError refer_to_documentation_message).
Proof.
  intros Ht Harr Hstr Hobj.
  destruct v as [| |b|z|s|l t|elems|props]; try discriminate.
  - simpl in Ht. by subst b.
  - unfold _processKnownEnvVars. by rewrite Ht.
  - by destruct (Hstr s).
  - reflexivity.
  - by destruct (Harr elems).
  - rewrite processKnownEnvVars_object, isAWSSecretsManagerSource_object.
    assert (forallb (fun k => Js.includes (List.map fst props) k) AWS_required = false)
      as ->.
    { apply (forallb_false_witness _ _ "region"); [simpl; auto|].
      destruct (Js.includes (List.map fst props) "region") eqn:E; [|done].
      apply includes_In in E. destruct (Hobj props eq_refl "region"); simpl; auto. }
    assert (existsb (fun k => Js.includes AWS_required k) (List.map fst props) = false)
      as ->; [|done].
    destruct (existsb _ (List.map fst props)) eqn:E; [|done].
    apply existsb_exists in E as (k & Hk & Hreq). apply includes_In in Hreq.
    by destruct (Hobj props eq_refl k Hreq).
Qed.

(** Only an object makes [_processKnownEnvVars] send a request. *)
Lemma request_needs_object v call :
  _processKnownEnvVars rt v = Js.Return (Promise_getSecretValue call) ->
  exists props, v = Js.Object props.
Proof.
  unfold _processKnownEnvVars.
  destruct (Js.truthy v) eqn:Ht; cbn [negb]; [|discriminate].
  destruct v as [| |b|z|s|id l g t|elems|props]; try discriminate.
  - destruct (fs_existsSync rt s); cbn [negb]; [|discriminate].
    destruct (fs_readFileSync rt s) as [c|]; cbn [Js.bind]; [|discriminate].
    destruct (dotenv_parse rt c) as [o|]; cbn [Js.bind]; [|discriminate].
    by destruct (Js.Object_keys o).
  - by destruct (Js.map_throwing knownEnvVars_element elems).
  - by eexists.
Qed.

End SourceShapes.

Lemma compile_not_array rt name v stringCheck :
  Js.truthy v = true -> Js.isArray v = false ->
  _processStringOrRegexArrayInput rt name v stringCheck
  = Js.Throw (BadArgsError ("expected " +:+ name +:+ " to be String|RegExp[]")).
Proof.
  intros Ht Ha. unfold _processStringOrRegexArrayInput. rewrite Ht. cbn [negb].
  by destruct v.
Qed.

(** X13.  An object is accepted as a secret-store descriptor exactly when each
    of region, secretId, secretAccessKey and accessKeyId is an own property
    holding a non-empty string; the request then carries those four values,
    and a session token, version id and version stage only when the
    descriptor holds a truthy value for them. *)
Theorem descriptor_accepted_iff_valid rt props p :
  _processKnownEnvVars rt (Js.Object props) = Js.Return p <->
  valid_descriptor props /\
  p = Promise_getSecretValue
        {| accessKeyId := Js.get_prop props "accessKeyId";
           secretAccessKey := Js.get_prop props "secretAccessKey";
           region := Js.get_prop props "region";
           sessionToken :=
             if Js.truthy (Js.get_prop props "sessionToken")
             then Some (Js.get_prop props "sessionToken") else None;
           SecretId := Js.get_prop props "secretId";
           VersionId :=
             if Js.truthy (Js.get_prop props "secretVersionId")
             then Some (Js.get_prop props "secretVersionId") else None;
           VersionStage :=
             if Js.truthy (Js.get_prop props "secretVersionStage")
             then Some (Js.get_prop props "secretVersionStage") else None |}.
Proof. apply descriptor_accepted. Qed.

(** X14.  The constructor resolves the known names before it looks at the
    other options: with a valid descriptor the request to the secret store is
    sent even when ignoreEnvVars, includePaths or excludePaths is then found
    not to be an array and the constructor throws. *)
Theorem request_sent_before_other_options_checked rt options props :
  Js.get options "knownEnvVars" = Js.Object props ->
  valid_descriptor props ->
  (exists call,
     fst (constructor rt options) = [call] /\
     Promise_getSecretValue call = getAWSSecretsManagerEnvVarNames (Js.Object props)) /\
  (Js.truthy (Js.get options "ignoreEnvVars") = true ->
   Js.isArray (Js.get options "ignoreEnvVars") = false ->
   snd (constructor rt options)
   = Js.Throw (BadArgsError "expected ignoreEnvVars to be String|RegExp[]")).
Proof.
  intros Hget Hvalid.
  pose proof (proj2 (descriptor_accepted rt props _) (conj Hvalid eq_refl)) as Hk.
  unfold constructor, options_get.
  destruct options; simpl in Hget; try discriminate.
  cbn [Js.bind Js.get fst snd] in *. rewrite Hget, Hk. cbn [Js.bind requests_sent].
  split; [by eexists|].
  intros Ht Ha. by rewrite (compile_not_array _ _ _ _ Ht Ha).
Qed.

Lemma request_sent_witness :
  (exists call,
     fst (constructor local_runtime
            (Js.Object [("knownEnvVars", sample_descriptor);
                        ("ignoreEnvVars", Js.Str "FOO")])) = [call] /\
     Promise_getSecretValue call = getAWSSecretsManagerEnvVarNames sample_descriptor) /\
  snd (constructor local_runtime
         (Js.Object [("knownEnvVars", sample_descriptor);
                     ("ignoreEnvVars", Js.Str "FOO")]))
  = Js.Throw (BadArgsError "expected ignoreEnvVars to be String|RegExp[]").
Proof.
  destruct (request_sent_before_other_options_checked local_runtime
              (Js.Object [("knownEnvVars", sample_descriptor);
                          ("ignoreEnvVars", Js.Str "FOO")])
              [("region", Js.Str "eu-west-1"); ("secretId", Js.Str "api-env-vars");
               ("secretAccessKey", Js.Str "s3cr3t"); ("accessKeyId", Js.Str "AKIA")]
              eq_refl) as [Hsent Hthrow].
  - intros k Hk. simpl in Hk.
    destruct Hk as [<-|[<-|[<-|[<-|[]]]]];
      (split; [simpl; auto 6|eexists; split; [reflexivity|discriminate]]).
  - split; [exact Hsent|]. apply Hthrow; reflexivity.
Defined.

(** X15.  A truthy known-names option that is neither an array nor a string
    nor an object owning one of the required descriptor properties (a number,
    [true], a regular expression, an object with other keys) is refused with
    the BadArgsError "... (refer to documentation)", before any request. *)
Theorem unrecognised_source_shape_refused rt v :
  Js.truthy v = true ->
  (forall elems, v <> Js.Array elems) ->
  (forall s, v <> Js.Str s) ->
  (forall props, v = Js.Object props ->
     forall k, In k AWS_required -> ~ In k (List.map fst props)) ->
  _processKnownEnvVars rt v
  = Js.Throw (BadArgsError "bad env vars source configuration (refer to documentation)") /\
  (forall options,
     Js.get options "knownEnvVars" = v ->
     constructor rt options
     = ([], Js.Throw (BadArgsError
                        "bad env vars source configuration (refer to documentation)"))).
Proof.
  intros Ht Harr Hstr Hobj.
  pose proof (not_a_source rt v Ht Harr Hstr Hobj) as Hthrow.
  split; [done|]. intros options Hget.
  eapply constructor_throws; [exact Hget| |done].
  intros ->. discriminate Ht.
Qed.

Lemma unrecognised_source_shape_witness :
  _processKnownEnvVars local_runtime (Js.Object [("secret", Js.Str "api")])
  = Js.Throw (BadArgsError "bad env vars source configuration (refer to documentation)").
Proof.
  refine (proj1 (unrecognised_source_shape_refused local_runtime
                   (Js.Object [("secret", Js.Str "api")]) eq_refl _ _ _));
    try discriminate.
  intros props [= <-] k Hk. simpl in Hk. simpl.
  destruct Hk as [<-|[<-|[<-|[<-|[]]]]]; intros [H|[]]; discriminate H.
Defined.

(** X16.  For every known-names option that is not an object (absent, an
    array of strings, a file path) no request is sent and the build never
    times out or stalls, whatever the secret store does and however unhandled
    rejections are treated: it compiles against the resolved list. *)
Theorem resolved_sources_always_compile
  rt options this throwUnhandled events compilation_errors :
  snd (constructor rt options) = Js.Return this ->
  (forall props, Js.get options "knownEnvVars" <> Js.Object props) ->
  exists known,
    knownEnvVars this = Promise_resolve known /\
    fst (constructor rt options) = [] /\
    apply throwUnhandled rt this events compilation_errors
    = Compiled (afterCompile (fst (scan this known events)) compilation_errors)
               (snd (scan this known events)).
Proof.
  intros Hc Hshape.
  pose proof (constructor_inv rt options this Hc) as (Ht & _ & Hk & _).
  destruct (knownEnvVars this) as [known|call] eqn:Hpromise.
  - exists known. split; [done|]. split; [|by apply apply_resolved].
    unfold constructor, options_get in *.
    destruct options; cbn [Js.bind Js.get Js.get_prop fst snd] in *;
      try discriminate; by rewrite Hk.
  - apply request_needs_object in Hk as (props & Hprops). by destruct (Hshape props).
Qed.

Lemma resolved_sources_witness :
  exists known,
    knownEnvVars (default_plugin_including "/src" ["A"; "B"]) = Promise_resolve known /\
    fst (constructor (sample_runtime 9000 (ResponseErr access_denied))
           (Js.Object [("knownEnvVars", Js.Str "/app/.env");
                       ("includePaths", Js.Array [Js.Str "/src"])])) = [] /\
    apply false (sample_runtime 9000 (ResponseErr access_denied))
      (default_plugin_including "/src" ["A"; "B"]) [read "C" src_a] []
    = Compiled
        (afterCompile
           (fst (scan (default_plugin_including "/src" ["A"; "B"]) known
                   [read "C" src_a])) [])
        (snd (scan (default_plugin_including "/src" ["A"; "B"]) known [read "C" src_a])).
Proof.
  refine (resolved_sources_always_compile
            (sample_runtime 9000 (ResponseErr access_denied))
            (Js.Object [("knownEnvVars", Js.Str "/app/.env");
                        ("includePaths", Js.Array [Js.Str "/src"])])
            (default_plugin_including "/src" ["A"; "B"]) false [read "C" src_a] []
            eq_refl _).
  discriminate.
Defined.

(** ** Beyond the claims: compiling the predicate options *)

Section MapThrowing.

Context {A B : Type} (f : A -> Js.completion B).

Lemma map_throwing_length (arr : list A) (ys : list B) :
  Js.map_throwing f arr = Js.Return ys -> length ys = length arr.
Proof.
  revert ys. induction arr as [|a arr IH]; intros ys; simpl.
  - by intros [= <-].
  - destruct (f a) as [b|]; [|done]. cbn [Js.bind].
    destruct (Js.map_throwing f arr) as [bs|]; [|done]. cbn [Js.bind].
    intros [= <-]. simpl. f_equal. by apply IH.
Qed.

Lemma map_throwing_all (arr : list A) :
  (forall x, In x arr -> exists y, f x = Js.Return y) ->
  exists ys, Js.map_throwing f arr = Js.Return ys.
Proof.
  induction arr as [|a arr IH]; intros H; simpl; [by eexists|].
  destruct (H a) as (b & ->); [by left|]. cbn [Js.bind].
  destruct IH as (bs & ->); [intros x Hx; apply H; by right|]. by eexists.
Qed.


End MapThrowing.

(** X17.  The predicate compiler accepts an array exactly when every entry is
    a string or a regular expression, and then returns one predicate per
    entry. *)
Theorem predicate_compiler_accepts_iff rt name entries stringCheck :
  (exists checks,
     _processStringOrRegexArrayInput rt name (Js.Array entries) stringCheck
     = Js.Return checks /\ length checks = length entries) <->
  forallb string_or_regexp entries = true.
Proof.
  unfold _processStringOrRegexArrayInput. cbn [Js.truthy negb].
  rewrite forallb_forall. split.
  - intros (checks & Hc & _) x Hx.
    destruct (map_throwing_In _ _ _ x Hc Hx) as (y & _ & Hy). by destruct x.
  - intros Hall.
    edestruct (map_throwing_all
                 (fun value : Js.value =>
                    match value with
                    | Js.RegExp id _ global_or_sticky exec =>
                        Js.Return (fun input h =>
                                     Js.RegExp_test id global_or_sticky exec input h)
                    | Js.Str s => Js.Return (fun input h => (stringCheck s input, h))
                    | _ => Js.Throw (BadArgsError
                             ("expecting " +:+ Js.toString (Number_toString rt) value
                              +:+ " to be [String|RegExp]"))
                    end) entries) as (checks & Hc).
    + intros x Hx. specialize (Hall x Hx). destruct x; try discriminate; by eexists.
    + exists checks. split; [exact Hc|]. by eapply map_throwing_length.
Qed.




Lemma startsWith_iff (input check : string) :
  Js.startsWith input check = true <-> exists rest, input = check +:+ rest.
Proof.
  split.
  - intros H. eexists. by apply startsWith_split.
  - intros (rest & ->). apply startsWith_app.
Qed.

(** X20.  A string entry of includePaths or excludePaths is a prefix test on
    the module path: the compiled predicate holds exactly for the paths that
    are the entry followed by anything (so an entry matches sibling names
    that merely begin with it, and the empty entry matches every path). *)
Theorem path_entries_are_prefix_tests rt options this :
  snd (constructor rt options) = Js.Return this ->
  (forall entries i entry,
     Js.get options "includePaths" = Js.Array entries ->
     entries !! i = Some (Js.Str entry) ->
     exists check, includePaths this !! i = Some check /\
       forall path h,
         snd (check path h) = h /\
         (fst (check path h) = true <-> exists rest, path = entry +:+ rest)) /\
  (forall entries i entry,
     Js.get options "excludePaths" = Js.Array entries ->
     entries !! i = Some (Js.Str entry) ->
     exists check, excludePaths this !! i = Some check /\
       forall path h,
         snd (check path h) = h /\
         (fst (check path h) = true <-> exists rest, path = entry +:+ rest)).
Proof.
  intros Hc. apply constructor_inv in Hc as (_ & _ & _ & _ & Hinc & Hexc).
  split; intros entries i entry Hget Hentry;
    [rewrite Hget in Hinc|rewrite Hget in Hexc].
  - unfold _processStringOrRegexArrayInput in Hinc. cbn [Js.truthy negb] in Hinc.
    destruct (map_throwing_lookup _ _ _ _ _ Hinc Hentry) as (check & Hcheck & Hdef).
    injection Hdef as <-. eexists. split; [exact Hcheck|].
    intros path h. split; [done|]. apply startsWith_iff.
  - unfold _processStringOrRegexArrayInput in Hexc. cbn [Js.truthy negb] in Hexc.
    destruct (map_throwing_lookup _ _ _ _ _ Hexc Hentry) as (check & Hcheck & Hdef).
    injection Hdef as <-. eexists. split; [exact Hcheck|].
    intros path h. split; [done|]. apply startsWith_iff.
Qed.

Lemma path_entries_witness :
  exists check,
    includePaths (default_plugin_including "/src" []) !! 0 = Some check /\
    forall path h,
      snd (check path h) = h /\
      (fst (check path h) = true <-> exists rest, path = "/src" +:+ rest).
Proof.
  exact (proj1 (path_entries_are_prefix_tests local_runtime
                  (Js.Object [("knownEnvVars", Js.Array []);
                              ("includePaths", Js.Array [Js.Str "/src"])])
                  (default_plugin_including "/src" []) eq_refl)
           [Js.Str "/src"] 0 "/src" eq_refl eq_refl).
Defined.

(** X21.  When knownEnvVars, ignoreEnvVars, includePaths and excludePaths are
    all absent or falsy (as for [new ValidateEnvVarsPlugin()]), the
    constructor does not throw and sends no request: the known names are the
    names of the process environment, the record is empty, the three
    predicate lists are empty and the timeout is 5000. *)
Theorem falsy_options_use_defaults rt options :
  options <> Js.Null ->
  (forall key, In key ["knownEnvVars"; "ignoreEnvVars"; "includePaths"; "excludePaths"] ->
     Js.truthy (Js.get options key) = false) ->
  constructor rt options
  = ([], Js.Return {| knownEnvVarsTimeout := 5000;
                      knownEnvVars := Promise_resolve (process_env rt);
                      foundUnrecognisedEnvVars := [];
                      ignoreEnvVars := [];
                      includePaths := [];
                      excludePaths := [];
                      lastIndexes := regexp_lastIndex rt |}).
Proof.
  intros Hnull Hfalsy.
  destruct options as [| |b|z|s|id l g t|elems|props]; try done.
  unfold constructor, options_get. cbn [Js.bind].
  unfold _processKnownEnvVars, _processStringOrRegexArrayInput.
  rewrite !Hfalsy by (simpl; auto). done.
Qed.

Lemma falsy_options_witness :
  constructor local_runtime (Js.Object [("includePaths", Js.Null)])
  = ([], Js.Return (default_plugin ["HOME"; "PATH"])).
Proof.
  refine (falsy_options_use_defaults local_runtime
            (Js.Object [("includePaths", Js.Null)]) _ _).
  - discriminate.
  - intros key Hkey. simpl in Hkey.
    destruct Hkey as [<-|[<-|[<-|[<-|[]]]]]; reflexivity.
Defined.

(** ** Beyond the claims: which expressions are read as accesses *)

Lemma identifier_named (n : Estree.Node) (x : string) :
  String.eqb (Estree.type n) "Identifier" = true -> Estree.name_is n x = true ->
  n = Estree.Identifier x.
Proof.
  destruct n as [y|y|? ? ?|? ?|t]; try discriminate.
  intros _ H. unfold Estree.name_is in H. simpl in H.
  apply String.eqb_eq in H. by subst.
Qed.

Lemma process_env_root (root : Estree.Node) :
  (String.eqb (Estree.type root) "MemberExpression"
   && match Estree.object root, Estree.property root with
      | Some obj_object, Some obj_property =>
          String.eqb (Estree.type obj_object) "Identifier"
          && Estree.name_is obj_object "process"
          && String.eqb (Estree.type obj_property) "Identifier"
          && Estree.name_is obj_property "env"
      | _, _ => false
      end) = true <->
  root = Estree.Static (Estree.Identifier "process") "env" false \/
  root = Estree.Computed (Estree.Identifier "process") (Estree.Identifier "env").
Proof.
  split.
  - destruct root as [x|x|o x p|o pr|t]; simpl; try discriminate.
    + destruct p; intros H;
        apply andb_prop in H as [H H4]; apply andb_prop in H as [H H3];
        apply andb_prop in H as [H1 H2]; [discriminate|].
      left. rewrite (identifier_named o "process" H1 H2).
      unfold Estree.name_is in H4. simpl in H4. apply String.eqb_eq in H4. by subst.
    + intros H.
      apply andb_prop in H as [H H4]. apply andb_prop in H as [H H3].
      apply andb_prop in H as [H1 H2].
      right. by rewrite (identifier_named o "process" H1 H2),
                        (identifier_named pr "env" H3 H4).
    + intros H. by rewrite andb_false_r in H.
  - by intros [-> | ->].
Qed.

(** X22.  The visitor takes an expression for a read of an environment
    variable exactly when it is a non-computed member access [root.NAME]
    (or [root.#NAME]) whose root is [process.env] or the computed
    [process[env]]; the name passed on is NAME.  Computed accesses
    [root[...]], other roots such as [foo.env] or [process.env.X] itself, and
    the bare [process.env] are never read as accesses. *)
Theorem env_read_shape expression n :
  env_read expression = Some n <->
  exists root private,
    expression = Estree.Static root n private /\
    (root = Estree.Static (Estree.Identifier "process") "env" false \/
     root = Estree.Computed (Estree.Identifier "process") (Estree.Identifier "env")).
Proof.
  unfold env_read, looks_like_process_env. split.
  - destruct expression as [x|x|o x p|o pr|t]; simpl; try discriminate.
    + rewrite andb_true_r.
      destruct (_ && _) eqn:Hroot; [|discriminate].
      apply process_env_root in Hroot. intros Hn. exists o, p. split; [|done].
      by destruct p; simpl in Hn; injection Hn as <-.
    + by rewrite andb_false_r.
  - intros (root & private & -> & Hroot). simpl. rewrite andb_true_r.
    rewrite (proj2 (process_env_root root) Hroot). by destruct private.
Qed.

Lemma tapParser_is_scan this known module visited :
  tapParser this known module visited
  = scan this known (events_of_module module visited).
Proof.
  revert this. induction visited as [|expression visited IH]; intros this; [done|].
  unfold events_of_module in *. cbn [tapParser omap list_omap].
  unfold visit_MemberExpression.
  destruct (env_read expression) as [name|].
  - rewrite scan_cons.
    destruct (MemberExpression this known _) as [this' dbg]. cbn [fst snd].
    rewrite IH. by destruct (scan this' known _).
  - rewrite IH. by destruct (scan this known _).
Qed.

(** X23.  Parsing the modules of a compilation one after the other is one
    scan of their accesses: the visitor records and logs exactly what [scan]
    does on the accesses [env_read] finds, module by module, in the order the
    walker visits them. *)
Theorem parse_modules_is_scan this known programs :
  parse_modules this known programs = scan this known (events_of programs).
Proof.
  revert this. induction programs as [|[module visited] programs IH]; intros this;
    [done|].
  unfold events_of in *. cbn [parse_modules List.flat_map fst snd].
  rewrite scan_app, tapParser_is_scan.
  destruct (scan this known (events_of_module module visited)) as [this' log1].
  cbn [fst snd]. rewrite IH. by destruct (scan this' known _).
Qed.

(** X24.  Computed member expressions such as [process.env[key]] are never
    taken for accesses: a program whose visited member expressions are all
    computed leaves the plugin untouched and writes nothing to the log,
    whatever their objects and keys are. *)
Theorem computed_reads_leave_no_trace this known module visited :
  Forall (fun expression => Estree.computed expression = true) visited ->
  tapParser this known module visited = (this, []).
Proof.
  induction 1 as [|expression visited Hcomputed _ IH]; [done|].
  cbn [tapParser]. unfold visit_MemberExpression.
  assert (env_read expression = None) as ->.
  { unfold env_read, looks_like_process_env.
    destruct expression; try discriminate. simpl. by rewrite andb_false_r. }
  by rewrite IH.
Qed.

Lemma computed_reads_witness :
  tapParser (default_plugin_including "/src" []) [] src_a
    [process_env_bracket (Estree.Identifier "key");
     process_env_bracket (Estree.Other "Literal")]
  = (default_plugin_including "/src" [], []).
Proof.
  refine (computed_reads_leave_no_trace (default_plugin_including "/src" []) [] src_a _ _).
  repeat constructor.
Defined.

(** ** Beyond the claims: where diagnostics are attributed *)




(** X26.  Whatever the source of the known names, a build that compiles adds
    no diagnostic for a name of the list the promise was fulfilled with: the
    diagnostics about such a name are the ones the host already held. *)
Theorem known_names_add_no_diagnostic
  throwUnhandled rt this events compilation_errors errors log :
  foundUnrecognisedEnvVars this = [] ->
  apply throwUnhandled rt this events compilation_errors = Compiled errors log ->
  exists ms known,
    settlement rt (knownEnvVars this) = Some (ms, Fulfilled known) /\
    forall k, In k known ->
      diagnostics_about k errors = diagnostics_about k compilation_errors.
Proof.
  intros Hfresh Hbuild.
  apply compiled_iff in Hbuild as (ms & known & Hs & _ & -> & _).
  exists ms, known. split; [done|]. intros k Hk.
  unfold afterCompile, diagnostics_about. rewrite List.filter_app.
  fold (diagnostics_about k (diagnostics (fst (scan this known events)))).
  rewrite (proj1 (scan_laws this known events Hfresh) k Hk). apply app_nil_r.
Qed.

Lemma known_names_witness :
  exists ms known,
    settlement local_runtime (knownEnvVars (default_plugin_including "/src" ["HOME"]))
    = Some (ms, Fulfilled known) /\
    forall k, In k known ->
      diagnostics_about k
        [UnrecognisedEnvVarError "SECRET" src_a]
      = diagnostics_about k [].
Proof.
  exact (known_names_add_no_diagnostic true local_runtime
           (default_plugin_including "/src" ["HOME"])
           [read "HOME" src_a; read "SECRET" src_a] []
           [UnrecognisedEnvVarError "SECRET" src_a]
           [("HOME", "in knownEnvVars"); ("SECRET", "unrecognised")]
           eq_refl eq_refl).
Defined.
